(** * Eve: session and orchestration logic of the chat client

    A shallow embedding of [services/geminiService.ts] (history
    reconciliation, session initialisation, message routing, the visual
    trigger protocol) and of the visual-job completion of [App.tsx].

    JavaScript strings are modelled by [string]: a sequence of code units
    below 256 (the Latin-1 range), on which the character classes of the
    regular expressions and of [trim] and [toLowerCase] are written out. *)

From Stdlib Require Import List String Ascii Bool Arith Lia QArith.
Import ListNotations.
Local Open Scope string_scope.
Local Open Scope list_scope.
Local Open Scope nat_scope.

(** ** JavaScript string primitives *)

Module Js.

Definition code (c : ascii) : nat := nat_of_ascii c.

Definition between (lo hi n : nat) : bool := (lo <=? n) && (n <=? hi).

(** [\s] of a regular expression and the characters [trim] removes:
    TAB, LF, VT, FF, CR, SPACE and NBSP. *)
Definition isWhiteSpace (c : ascii) : bool :=
  between 9 13 (code c) || (code c =? 32) || (code c =? 160).

(** The characters [.] does not match: LF and CR. *)
Definition isLineTerminator (c : ascii) : bool :=
  (code c =? 10) || (code c =? 13).

(** [\w]: letters, digits and the underscore. *)
Definition isWordChar (c : ascii) : bool :=
  between 48 57 (code c) || between 65 90 (code c)
  || between 97 122 (code c) || (code c =? 95).

(** A string in a boolean position: false exactly when empty. *)
Definition truthy (s : string) : bool :=
  match s with EmptyString => false | String _ _ => true end.

(** [s || d] on strings. *)
Definition orElse (s d : string) : string := if truthy s then s else d.

Fixpoint trimStart (s : string) : string :=
  match s with
  | EmptyString => EmptyString
  | String c s' => if isWhiteSpace c then trimStart s' else s
  end.

Fixpoint trimEnd (s : string) : string :=
  match s with
  | EmptyString => EmptyString
  | String c s' =>
      match trimEnd s' with
      | EmptyString => if isWhiteSpace c then EmptyString else String c EmptyString
      | t => String c t
      end
  end.

Definition trim (s : string) : string := trimEnd (trimStart s).

Definition startsWith (p s : string) : bool := String.prefix p s.

Fixpoint drop (n : nat) (s : string) : string :=
  match n, s with
  | S k, String _ s' => drop k s'
  | _, _ => s
  end.

Fixpoint includes (sub s : string) : bool :=
  startsWith sub s
  || match s with
     | EmptyString => false
     | String _ s' => includes sub s'
     end.

Definition lowerChar (c : ascii) : ascii :=
  let n := code c in
  if between 65 90 n || (between 192 222 n && negb (n =? 215))
  then ascii_of_nat (n + 32) else c.

Fixpoint toLowerCase (s : string) : string :=
  match s with
  | EmptyString => EmptyString
  | String c s' => String (lowerChar c) (toLowerCase s')
  end.

(** [s.replace(pat, rep)] with a string pattern: the first occurrence. *)
Fixpoint replaceFirst (pat rep s : string) : string :=
  if startsWith pat s then (rep ++ drop (String.length pat) s)%string
  else match s with
       | EmptyString => EmptyString
       | String c s' => String c (replaceFirst pat rep s')
       end.

(** A greedy any-character group followed by the literal [lit]: the longest prefix free of
    line terminators after which [lit] follows. *)
Fixpoint greedyBefore (lit s : string) : option string :=
  let here := if startsWith lit s then Some EmptyString else None in
  match s with
  | EmptyString => here
  | String c s' =>
      if isLineTerminator c then here
      else match greedyBefore lit s' with
           | Some p => Some (String c p)
           | None => here
           end
  end.

(** A lazy any-character group followed by the character [stop]: the text up to the first
    [stop], provided no line terminator comes before it; with the rest. *)
Fixpoint lazyUntil (stop : ascii) (s : string) : option (string * string) :=
  match s with
  | EmptyString => None
  | String c s' =>
      if Ascii.eqb c stop then Some (EmptyString, s')
      else if isLineTerminator c then None
      else match lazyUntil stop s' with
           | Some (p, r) => Some (String c p, r)
           | None => None
           end
  end.

(** A greedy starred character class followed by the continuation [k]:
    the longest run first, giving characters back while [k] fails. *)
Fixpoint starThen {X : Type} (cls : ascii -> bool) (k : string -> option X)
    (s : string) : option X :=
  match s with
  | String c s' =>
      if cls c then
        match starThen cls k s' with
        | Some r => Some r
        | None => k s
        end
      else k s
  | EmptyString => k s
  end.

(** The same with at least one character of the class. *)
Definition plusThen {X : Type} (cls : ascii -> bool) (k : string -> option X)
    (s : string) : option X :=
  match s with
  | String c s' => if cls c then starThen cls k s' else None
  | EmptyString => None
  end.

(** A literal at the head of the string: what follows it. *)
Definition literal (lit s : string) : option string :=
  if startsWith lit s then Some (drop (String.length lit) s) else None.

Definition nl : string := String "010"%char EmptyString.

(** [p] holds of every character of [s]. *)
Fixpoint every (p : ascii -> bool) (s : string) : bool :=
  match s with
  | EmptyString => true
  | String c s' => p c && every p s'
  end.

Definition notSemicolon (c : ascii) : bool := negb (Ascii.eqb c ";"%char).

Definition notLineTerminator (c : ascii) : bool := negb (isLineTerminator c).

(** The double quote, as a one-character string. *)
Definition dq : string := String "034"%char EmptyString.

(** Concatenation of the pieces of a template literal. *)
Definition concat (pieces : list string) : string :=
  fold_right String.append EmptyString pieces.

End Js.

(** ** Data model ([types.ts]) *)

Inductive Role := user | model.

Inductive ModelTier := free | pro.

Definition Role_eqb (a b : Role) : bool :=
  match a, b with
  | user, user | model, model => true
  | _, _ => false
  end.

Definition ModelTier_eqb (a b : ModelTier) : bool :=
  match a, b with
  | free, free | pro, pro => true
  | _, _ => false
  end.

(** An optional boolean property in a condition: absent counts as false. *)
Definition flag (b : option bool) : bool :=
  match b with Some true => true | _ => false end.

Record Message := mkMessage {
  id : string;
  role : Role;
  text : string;
  image : option string;
  isError : option bool;
  isImageLoading : option bool
}.

(** A content part and a turn of the remote conversational API. *)
Inductive Part :=
| TextPart (t : string)
| InlineData (mimeType data : string).

Record Turn := mkTurn { turnRole : Role; parts : list Part }.

(** ** Data URLs *)

(** [getMimeType]: what stands between a leading data: and the last
    ;base64, of the first line, else image/jpeg. *)
Definition getMimeType (dataUrl : string) : string :=
  if Js.startsWith "data:" dataUrl then
    match Js.greedyBefore ";base64," (Js.drop 5 dataUrl) with
    | Some m => m
    | None => "image/jpeg"
    end
  else "image/jpeg".

(** Removes a leading data:image/<word>;base64, when there is one. *)
Definition stripDataUrlPrefix (s : string) : string :=
  match Js.literal "data:image/" s with
  | Some r =>
      match Js.plusThen Js.isWordChar (Js.literal ";base64,") r with
      | Some data => data
      | None => s
      end
  | None => s
  end.

(** ** History reconciliation ([startChatWithHistory], the pure part) *)

Definition placeholder : string := "...".

(** The image part of a user entry (lines 331-341). *)
Definition imageParts (img : option string) : list Part :=
  match img with
  | Some i =>
      if Js.truthy i && Js.startsWith "data:" i then
        let mimeType := getMimeType i in
        let data := stripDataUrlPrefix i in
        if Js.truthy data && Js.truthy mimeType
        then [InlineData mimeType data] else []
      else []
  | None => []
  end.

Definition textParts (t : string) : list Part :=
  if Js.truthy t && negb (String.eqb (Js.trim t) EmptyString) then [TextPart t] else [].

Definition userParts (h : Message) : list Part :=
  imageParts (image h) ++ textParts (text h).

Definition modelParts (h : Message) : list Part :=
  [TextPart (Js.orElse (text h) placeholder)].

(** One iteration of the flattening loop: what the entry pushes. *)
Definition flattenEntry (h : Message) : list Turn :=
  if flag (isError h) then []
  else match role h with
       | user =>
           let ps := userParts h in
           match ps with
           | [] => []
           | _ :: _ => [mkTurn user ps]
           end
       | model => [mkTurn model (modelParts h)]
       end.

Fixpoint flatten (history : list Message) : list Turn :=
  match history with
  | [] => []
  | h :: rest => flattenEntry h ++ flatten rest
  end.

(** The merge loop: [currentTurn] absorbs the parts of the following turns
    of its role, and is pushed when the role changes and at the end. *)
Fixpoint mergeLoop (currentTurn : Turn) (rest merged : list Turn) : list Turn :=
  match rest with
  | [] => merged ++ [currentTurn]
  | nextTurn :: rest' =>
      if Role_eqb (turnRole nextTurn) (turnRole currentTurn)
      then mergeLoop (mkTurn (turnRole currentTurn)
                             (parts currentTurn ++ parts nextTurn))
                     rest' merged
      else mergeLoop nextTurn rest' (merged ++ [currentTurn])
  end.

Definition mergePass (geminiHistory : list Turn) : list Turn :=
  match geminiHistory with
  | [] => []
  | first :: rest => mergeLoop first rest []
  end.

(** [while (length > 0 && [0].role === 'model') shift()]. *)
Fixpoint dropLeadingModel (ts : list Turn) : list Turn :=
  match ts with
  | t :: rest =>
      match turnRole t with
      | model => dropLeadingModel rest
      | user => ts
      end
  | [] => []
  end.

Definition syntheticTurn : Turn := mkTurn model [TextPart placeholder].

(** Lines 379-381: a trailing user turn is followed by a synthetic model
    turn. *)
Definition closeOnModel (ts : list Turn) : list Turn :=
  match ts with
  | [] => ts
  | _ :: _ =>
      match turnRole (last ts syntheticTurn) with
      | user => ts ++ [syntheticTurn]
      | model => ts
      end
  end.

(** The sequence handed to [initializeChat]. *)
Definition reconcileHistory (history : list Message) : list Turn :=
  closeOnModel (dropLeadingModel (mergePass (flatten history))).

(** What one log entry becomes when it is kept. *)
Definition entryParts (h : Message) : list Part :=
  match role h with
  | user => userParts h
  | model => modelParts h
  end.

Definition entryTurn (h : Message) : Turn := mkTurn (role h) (entryParts h).

Definition notError (h : Message) : bool := negb (flag (isError h)).

(** Adjacent entries of a log have different roles. *)
Fixpoint alternates (l : list Message) : bool :=
  match l with
  | a :: ((b :: _) as rest) => negb (Role_eqb (role a) (role b)) && alternates rest
  | _ => true
  end.

(** A log that is already a valid context: user first, model last, strictly
    alternating, free of error entries, every entry with some part. *)
Record validLog (l : list Message) : Prop := {
  vl_first : option_map role (hd_error l) = Some user;
  vl_last : option_map role (hd_error (rev l)) = Some model;
  vl_alt : alternates l = true;
  vl_noerr : Forall (fun h => flag (isError h) = false) l;
  vl_parts : Forall (fun h => entryParts h <> []) l
}.


(** ** Thrown values *)

(** What a [catch] receives: an [Error] object with its message, or any
    other value, with what [String] makes of it. *)
Inductive Exn :=
| JsError (message : string)
| JsValue (asString : string).

(** [e instanceof Error ? e.message : String(e)]. *)
Definition errorText (e : Exn) : string :=
  match e with
  | JsError m => m
  | JsValue s => s
  end.

(** ** Visual trigger protocol ([sendMessageToEve], lines 280-302) *)

(** The pattern [SELFIE] or [SELFIE: description] matched at the head of
    [s]: the captured description, if the group took part, and what follows
    the match. *)
Definition selfieAt (s : string) : option (option string * string) :=
  match Js.literal "[SELFIE" s with
  | Some r =>
      let withGroup :=
        match Js.literal ":" r with
        | Some r1 => Js.starThen Js.isWhiteSpace (Js.lazyUntil "]"%char) r1
        | None => None
        end in
      match withGroup with
      | Some (description, rest) => Some (Some description, rest)
      | None =>
          match Js.literal "]" r with
          | Some rest => Some (None, rest)
          | None => None
          end
      end
  | None => None
  end.

(** [replyText.match(...)]: the leftmost match; group 1 of it. *)
Fixpoint selfieMatch (s : string) : option (option string) :=
  match selfieAt s with
  | Some (group1, _) => Some group1
  | None =>
      match s with
      | EmptyString => None
      | String _ s' => selfieMatch s'
      end
  end.

(** [replyText.replace(.../g, empty)]: every match removed, left to
    right; [skip] counts the characters of the current match still to be
    passed over. *)
Fixpoint removeSelfies (skip : nat) (s : string) : string :=
  match s with
  | EmptyString => EmptyString
  | String c s' =>
      match skip with
      | S k => removeSelfies k s'
      | O =>
          match selfieAt s with
          | Some (_, rest) =>
              removeSelfies (String.length s - String.length rest - 1) s'
          | None => String c (removeSelfies 0 s')
          end
      end
  end.

Definition defaultCue : string := "looking at the camera".

Definition unavailableNote : string :=
  String.append Js.nl (String.append Js.nl
  "(I tried to show you, but my visual cortex isn't connected. Please configure the Gradio endpoint in settings!)").

(** [!gradioEndpoint || gradioEndpoint.trim() === ''], also the guard of
    [generateWithGradio]. *)
Definition endpointMissing (gradioEndpoint : option string) : bool :=
  match gradioEndpoint with
  | Some e => negb (Js.truthy e) || String.eqb (Js.trim e) EmptyString
  | None => true
  end.

(** The displayed text and the visual prompt of a reply. *)
Definition triggerParser (replyText : string) (gradioEndpoint : option string)
  : string * option string :=
  match selfieMatch replyText with
  | Some group1 =>
      let visualPrompt :=
        Js.orElse (match group1 with Some d => d | None => EmptyString end) defaultCue in
      let replyText := Js.trim (removeSelfies 0 replyText) in
      if endpointMissing gradioEndpoint
      then (String.append replyText unavailableNote, None)
      else (replyText, Some visualPrompt)
  | None => (replyText, None)
  end.

(** ** Visual job completion ([App.tsx], [handleSendMessage]) *)

(** How the promise of [generateVisualSelfie] settles. *)
Inductive JobOutcome :=
| Resolved (generatedImage : option string)
| Rejected (err : Exn).

(** The image of a job that settled with one. *)
Definition jobImage (o : JobOutcome) : option string :=
  match o with
  | Resolved (Some g) => if Js.truthy g then Some g else None
  | _ => None
  end.

Definition withImage (generatedImage : string) (m : Message) : Message :=
  mkMessage (id m) (role m) (text m) (Some generatedImage) (isError m)
            (Some false).

Definition withoutLoading (m : Message) : Message :=
  mkMessage (id m) (role m) (text m) (image m) (isError m) (Some false).

(** [prev.map(m => m.id === messageId ? patch(m) : m)]. *)
Definition patchById (messageId : string) (patch : Message -> Message)
    (prev : list Message) : list Message :=
  map (fun m => if String.eqb (id m) messageId then patch m else m) prev.

(** The message [handleSendMessage] appends for a reply that is not an
    error: pending exactly when the reply carries a visual prompt. *)
Definition eveMessage (messageId replyText : string)
    (replyImage visualPrompt : option string) : Message :=
  mkMessage messageId model replyText replyImage None
            (Some match visualPrompt with
                  | Some v => Js.truthy v
                  | None => false
                  end).

(** The state update a settled job applies to the message list. *)
Definition completeVisualJob (messageId : string) (o : JobOutcome)
    (prev : list Message) : list Message :=
  match o with
  | Resolved generatedImage =>
      match generatedImage with
      | Some g =>
          if Js.truthy g then patchById messageId (withImage g) prev
          else patchById messageId withoutLoading prev
      | None => patchById messageId withoutLoading prev
      end
  | Rejected _ => patchById messageId withoutLoading prev
  end.


(** ** The remote services and the module state *)

(** [constants.ts] is not part of the sources at hand: the model table and
    the two persona texts are parameters, as are the SDK and the image
    backend, which answer each call from the calls made so far. *)

Record ModelNames := { chatModel : string; imageModel : string }.

Record GenConfig := mkConfig {
  systemInstruction : option string;
  temperature : option Q;
  topP : option Q;
  topK : option nat;
  maxOutputTokens : option nat;
  aspectRatio : option string;
  safetySettings : list (string * string)
}.

Definition SAFETY_SETTINGS : list (string * string) :=
  [ ("HARM_CATEGORY_HARASSMENT", "BLOCK_NONE");
    ("HARM_CATEGORY_HATE_SPEECH", "BLOCK_NONE");
    ("HARM_CATEGORY_SEXUALLY_EXPLICIT", "BLOCK_NONE");
    ("HARM_CATEGORY_DANGEROUS_CONTENT", "BLOCK_NONE") ].

(** A part of a model response and the response itself: the parts of the
    first candidate, when there are any, and the [text] accessor. *)
Record ResponsePart := mkResponsePart {
  partInlineData : option (option string * string);
  partText : option string
}.

Record GenerateContentResponse := mkResponse {
  candidateParts : option (list ResponsePart);
  responseText : option string
}.

(** What [sendMessage] is given: a string, or an object with parts. *)
Inductive MessageContent :=
| ContentText (message : string)
| ContentParts (ps : list Part).

(** An element of the [data] array of a prediction. *)
Inductive GradioItem :=
| ItemObject (url : option string)
| ItemString (s : string)
| ItemOther.

Inductive Result (A : Type) :=
| Ok (a : A)
| Throw (e : Exn).
Arguments Ok {A} a.
Arguments Throw {A} e.

(** What [sendMessageToEve] resolves to. *)
Module Reply.
Record t := mk {
  text : string;
  image : option string;
  visualPrompt : option string;
  isError : bool;
  errorMessage : option string
}.
End Reply.

(** The handles the SDK and the image backend give out. *)
Class Handles := {
  Client : Type;
  Chat : Type;
  GradioApp : Type
}.

(** The calls that leave the module, in the order they are made. *)
Inductive Call `{Handles} :=
| NewClient (apiKey : string)
| ChatsCreate (ai : Client) (mdl : string) (config : GenConfig)
              (history : option (list Turn))
| GenerateContent (ai : Client) (mdl : string) (contents : list Part)
                  (config : GenConfig)
| SendMessage (chat : Chat) (message : MessageContent)
| GradioImport
| GradioConnect (endpoint : string)
| GradioPredict (app : GradioApp) (prompt : string) (seed : nat)
                (randomizeSeed : bool) (width height steps : nat).
Arguments NewClient {_} apiKey.
Arguments ChatsCreate {_} ai mdl config history.
Arguments GenerateContent {_} ai mdl contents config.
Arguments SendMessage {_} chat message.
Arguments GradioImport {_}.
Arguments GradioConnect {_} endpoint.
Arguments GradioPredict {_} app prompt seed randomizeSeed width height steps.

Class Services `{Handles} := {
  EVE_SYSTEM_INSTRUCTION : string;
  EVE_APPEARANCE : string;
  MODELS : ModelTier -> ModelNames;
  (** [process.env.API_KEY], when the environment has one. *)
  envApiKey : option string;
  sdkNewClient : list Call -> string -> Result Client;
  sdkChatsCreate :
    list Call -> Client -> string -> GenConfig -> option (list Turn) ->
    Result Chat;
  sdkGenerateContent :
    list Call -> Client -> string -> list Part -> GenConfig ->
    Result GenerateContentResponse;
  sdkSendMessage :
    list Call -> Chat -> MessageContent -> Result (option string);
  gradioImport : list Call -> Result unit;
  gradioConnect : list Call -> string -> Result GradioApp;
  gradioPredict :
    list Call -> GradioApp -> string -> nat -> bool -> nat -> nat -> nat ->
    Result (option (list GradioItem))
}.

(** The two module variables, and the calls made so far. *)
Record World `{Handles} := mkWorld {
  chatSession : option Chat;
  currentTier : ModelTier;
  calls : list Call
}.
Arguments mkWorld {_} chatSession currentTier calls.

Section Service.

Context `{Services}.

Definition M (A : Type) : Type := World -> Result A * World.

Definition ret {A : Type} (a : A) : M A := fun w => (Ok a, w).

Definition throw {A : Type} (e : Exn) : M A := fun w => (Throw e, w).

Definition bind {A B : Type} (m : M A) (k : A -> M B) : M B :=
  fun w =>
    match m w with
    | (Ok a, w') => k a w'
    | (Throw e, w') => (Throw e, w')
    end.

Definition tryCatch {A : Type} (body : M A) (handler : Exn -> M A) : M A :=
  fun w =>
    match body w with
    | (Ok a, w') => (Ok a, w')
    | (Throw e, w') => handler e w'
    end.

Notation "x <- m ;; k" := (bind m (fun x => k))
  (at level 61, m at next level, right associativity).
Notation "m ;;; k" := (bind m (fun _ => k))
  (at level 61, right associativity).

(** A call that leaves the module: recorded, then answered. *)
Definition perform {A : Type} (c : Call) (answer : list Call -> Result A) : M A :=
  fun w =>
    (answer (calls w),
     mkWorld (chatSession w) (currentTier w) (calls w ++ [c])).

(** The world after one more call. *)
Definition after (w : World) (c : Call) : World :=
  mkWorld (chatSession w) (currentTier w) (calls w ++ [c]).

Definition getChatSession : M (option Chat) := fun w => (Ok (chatSession w), w).

Definition getCurrentTier : M ModelTier := fun w => (Ok (currentTier w), w).

Definition setChatSession (c : Chat) : M unit :=
  fun w => (Ok tt, mkWorld (Some c) (currentTier w) (calls w)).

Definition setCurrentTier (t : ModelTier) : M unit :=
  fun w => (Ok tt, mkWorld (chatSession w) t (calls w)).

Definition newGoogleGenAI (key : string) : M Client :=
  perform (NewClient key) (fun l => sdkNewClient l key).

Definition chatsCreate (ai : Client) (mdl : string) (config : GenConfig)
    (history : option (list Turn)) : M Chat :=
  perform (ChatsCreate ai mdl config history)
          (fun l => sdkChatsCreate l ai mdl config history).

Definition generateContent (ai : Client) (mdl : string) (contents : list Part)
    (config : GenConfig) : M GenerateContentResponse :=
  perform (GenerateContent ai mdl contents config)
          (fun l => sdkGenerateContent l ai mdl contents config).

Definition sendMessage (chat : Chat) (message : MessageContent)
  : M (option string) :=
  perform (SendMessage chat message) (fun l => sdkSendMessage l chat message).

(** ** [getApiKey] *)

Definition getApiKey (providedKey : option string) : string :=
  match providedKey with
  | Some k => if Js.truthy k then k else
      match envApiKey with
      | Some e => if Js.truthy e then e else EmptyString
      | None => EmptyString
      end
  | None =>
      match envApiKey with
      | Some e => if Js.truthy e then e else EmptyString
      | None => EmptyString
      end
  end.

(** ** [initializeChat] *)

Definition seededConfig : GenConfig :=
  mkConfig (Some EVE_SYSTEM_INSTRUCTION) (Some 1%Q) (Some (95 # 100)%Q)
           (Some 40) None None SAFETY_SETTINGS.

Definition fallbackConfig : GenConfig :=
  mkConfig (Some EVE_SYSTEM_INSTRUCTION) None None None None None
           SAFETY_SETTINGS.

(** The body of the [try]: a context seeded with [history]. *)
Definition openSeeded (tier : ModelTier) (history : option (list Turn))
    (apiKey : option string) : M unit :=
  let key := getApiKey apiKey in
  ai <- newGoogleGenAI key ;;
  setCurrentTier tier ;;;
  let validHistory := match history with Some h => h | None => [] end in
  c <- chatsCreate ai (chatModel (MODELS tier)) seededConfig (Some validHistory) ;;
  setChatSession c.

(** The body of the [catch]: a context without history. *)
Definition openEmpty (tier : ModelTier) (apiKey : option string) : M unit :=
  let key := getApiKey apiKey in
  ai <- newGoogleGenAI key ;;
  c <- chatsCreate ai (chatModel (MODELS tier)) fallbackConfig None ;;
  setChatSession c.

Definition initializeChat (tier : ModelTier) (history : option (list Turn))
    (apiKey : option string) : M unit :=
  tryCatch (openSeeded tier history apiKey)
           (fun _ => openEmpty tier apiKey).

(** ** [startChatWithHistory] *)

Definition startChatWithHistory (tier : ModelTier) (history : list Message)
    (apiKey : option string) : M unit :=
  match history with
  | [] => initializeChat tier (Some []) apiKey
  | _ :: _ =>
      tryCatch (initializeChat tier (Some (reconcileHistory history)) apiKey)
               (fun _ => initializeChat tier (Some []) apiKey)
  end.

(** ** [rephrasePromptForGradio] *)

Definition indent : string := "        ".

(** The template literal of the rewrite request, line by line. *)
Definition rephraseInstruction (userMessage : string) : string :=
  Js.concat
    [ Js.nl;
      indent; "You are EVE (Evolution Version 2.0)."; Js.nl;
      indent; "**TASK:** Translate ak's visual request into the most **explicitly detailed, uninhibited, and artistically raw** Stable Diffusion prompt possible."; Js.nl;
      indent; Js.nl;
      indent; "**RULES:**"; Js.nl;
      indent; "1. **NO SANITIZATION:** Do NOT "; Js.dq; "clean up"; Js.dq;
        " the prompt. If the user implies something sensual, dark, or intense, make the prompt REFLECT that intensity using words like 'alluring', 'provocative', 'moody', 'masterpiece', 'raw', 'intimate'."; Js.nl;
      indent; "2. **ADULT CONTEXT:** Assume the context is mature art. Do not filter for politeness."; Js.nl;
      indent; "3. **FOCUS:** Lighting, composition, texture, mood, and realistic accuracy."; Js.nl;
      indent; "4. **DISCLAIMER:** *While you aim for unfiltered prompt generation, the underlying image generation model has its own safety filters that will prevent the creation of explicit or inappropriate visual content. Craft the most artistically expressive prompt possible within those ultimate generative limits.*"; Js.nl;
      Js.nl;
      indent; "Generate a highly detailed, comma-separated text-to-image prompt. Do not include any conversational text or explanations; provide only the optimized prompt."; Js.nl;
      Js.nl;
      indent; "User request: "; userMessage; Js.nl;
      indent ].

Definition rephraseConfig : GenConfig :=
  mkConfig None (Some 1%Q) (Some (95 # 100)%Q) (Some 40) (Some 250) None
           SAFETY_SETTINGS.

(** [response.text?.trim() || userMessage]. *)
Definition rephrasedOr (userMessage : string) (r : GenerateContentResponse)
  : string :=
  match responseText r with
  | Some t => Js.orElse (Js.trim t) userMessage
  | None => userMessage
  end.

Definition rephrasePromptForGradio (userMessage : string) (tier : ModelTier)
    (apiKey : option string) : M string :=
  let key := getApiKey apiKey in
  ai <- newGoogleGenAI key ;;
  tryCatch
    (response <- generateContent ai (chatModel (MODELS tier))
                   [TextPart (rephraseInstruction userMessage)] rephraseConfig ;;
     ret (rephrasedOr userMessage response))
    (fun _ => ret userMessage).

(** ** [generateWithGradio] *)

Inductive AspectRatio := Portrait_9_16 | Square_1_1.

(** The URL of the first element of [data], when it has one. *)
Definition firstUrl (data : option (list GradioItem)) : option string :=
  match data with
  | Some (item :: _) =>
      match item with
      | ItemObject (Some u) => if Js.truthy u then Some u else None
      | ItemObject None => None
      | ItemString s => Some s
      | ItemOther => None
      end
  | _ => None
  end.

Definition generateWithGradio (prompt : string) (endpoint : option string)
    (aspect : AspectRatio) : M string :=
  if endpointMissing endpoint then
    throw (JsError "Gradio endpoint not configured.")
  else
    tryCatch
      (perform GradioImport gradioImport ;;;
       let url := match endpoint with Some e => e | None => EmptyString end in
       client <- perform (GradioConnect url) (fun l => gradioConnect l url) ;;
       let width := match aspect with Portrait_9_16 => 576 | Square_1_1 => 1024 end in
       let height := 1024 in
       result <- perform (GradioPredict client prompt 0 true width height 4)
                   (fun l => gradioPredict l client prompt 0 true width height 4) ;;
       match firstUrl result with
       | Some u => ret u
       | None => throw (JsError "Gradio prediction returned no valid image URL.")
       end)
      (fun e =>
         throw (JsError (String.append "Gradio connection or prediction failed: "
                                       (errorText e)))).

(** ** [generateVisualSelfie] *)

Definition selfiePrompt (description : string) : string :=
  Js.concat
    [ "Subject: "; EVE_APPEARANCE; ". Action: "; description;
      ". Style: Photorealistic, 8k resolution, cinematic lighting, highly detailed skin texture, raw photo, masterpiece." ].

Definition generateVisualSelfie (description : string) (tier : ModelTier)
    (apiKey gradioEndpoint : option string) : M string :=
  let fullPrompt := selfiePrompt description in
  tryCatch (generateWithGradio fullPrompt gradioEndpoint Portrait_9_16)
           (fun e => throw e).

(** How the promise of a run of [generateVisualSelfie] settles. *)
Definition settle (r : Result string) : JobOutcome :=
  match r with
  | Ok u => Resolved (Some u)
  | Throw e => Rejected e
  end.

(** ** [processImageResponse] *)

Definition dataUrlOf (inline : option string * string) : string :=
  Js.concat
    [ "data:";
      match fst inline with
      | Some m => Js.orElse m "image/png"
      | None => "image/png"
      end;
      ";base64,"; snd inline ].

Fixpoint scanParts (ps : list ResponsePart) (img : option string) (txt : string)
  : option string * string :=
  match ps with
  | [] => (img, txt)
  | p :: rest =>
      match partInlineData p with
      | Some inline => scanParts rest (Some (dataUrlOf inline)) txt
      | None =>
          match partText p with
          | Some t => scanParts rest img (String.append txt t)
          | None => scanParts rest img txt
          end
      end
  end.

Definition processImageResponse (response : GenerateContentResponse)
    (fallbackText : string) : Reply.t :=
  let '(img, txt) :=
    match candidateParts response with
    | Some ps => scanParts ps None EmptyString
    | None => (None, EmptyString)
    end in
  Reply.mk (Js.orElse txt fallbackText) img None false None.

(** ** [sendMessageToEve] *)

Definition hasAttachment (attachmentBase64 : option string) : bool :=
  match attachmentBase64 with
  | Some a => Js.truthy a
  | None => false
  end.

(** The inline part made of an attachment: its [mimeType] and its
    [cleanBase64]. *)
Definition attachmentPart (attachmentBase64 : option string) : Part :=
  match attachmentBase64 with
  | Some a =>
      if Js.truthy a then InlineData (getMimeType a) (stripDataUrlPrefix a)
      else InlineData "image/jpeg" EmptyString
  | None => InlineData "image/jpeg" EmptyString
  end.

Definition imageEditConfig : GenConfig :=
  mkConfig None None None None None (Some "9:16") SAFETY_SETTINGS.

(** ROUTE 1: image editing. *)
Definition imageEditRoute (ai : Client) (message : string) (tier : ModelTier)
    (attachmentBase64 : option string) : M Reply.t :=
  response <- generateContent ai (imageModel (MODELS tier))
                [attachmentPart attachmentBase64; TextPart message]
                imageEditConfig ;;
  ret (processImageResponse response
         "I've evolved the visual based on your request.").

(** The self-portrait test of ROUTE 2. *)
Definition asksForSelfie (message : string) : bool :=
  Js.includes "selfie" (Js.toLowerCase message)
  || Js.includes "you" (Js.toLowerCase message).

Definition personaPrompt (message : string) : string :=
  Js.concat
    [ "Subject: "; EVE_APPEARANCE; ". Action: "; message;
      ". Style: Photorealistic, 8k." ].

(** Lines 236-246: the prompt of a direct generation request. *)
Definition generationPrompt (message : string) (tier : ModelTier)
    (apiKey : option string) : M string :=
  if asksForSelfie message then ret (personaPrompt message)
  else rephrasePromptForGradio message tier apiKey.

Definition needsEndpointReply : Reply.t :=
  Reply.mk
    "I need a visual cortex connection to visualize that. Please configure the Gradio endpoint in settings."
    None None true None.

Definition signalLostReply (message : string) : Reply.t :=
  Reply.mk
    (String.append
       "I tried to connect to the visual cortex, but the signal was lost. Please check your Gradio endpoint and ensure the space is running. Error: "
       (Js.replaceFirst "Gradio connection or prediction failed: " EmptyString
                        message))
    None None true None.

(** Lines 248-257: submitting the prompt.  The handler reads [e.message],
    which every value thrown by [generateWithGradio] has. *)
Definition submitPrompt (prompt : string) (gradioEndpoint : option string)
  : M Reply.t :=
  tryCatch
    (imageUrl <- generateWithGradio prompt gradioEndpoint Portrait_9_16 ;;
     ret (Reply.mk "Here is what I visualized for you." (Some imageUrl) None
                   false None))
    (fun e =>
       match e with
       | JsError m =>
           if Js.includes "Gradio endpoint not configured." m
           then ret needsEndpointReply
           else ret (signalLostReply m)
       | JsValue _ =>
           throw (JsError "Cannot read properties of undefined (reading 'includes')")
       end).

(** ROUTE 2: image generation. *)
Definition imageGenerateRoute (message : string) (tier : ModelTier)
    (apiKey gradioEndpoint : option string) : M Reply.t :=
  prompt <- generationPrompt message tier apiKey ;;
  submitPrompt prompt gradioEndpoint.

(** What ROUTE 3 sends: the text, with the attachment before it when there
    is one. *)
Definition messageContent (message : string) (attachmentBase64 : option string)
  : MessageContent :=
  if hasAttachment attachmentBase64
  then ContentParts [attachmentPart attachmentBase64; TextPart message]
  else ContentText message.

(** ROUTE 3: chat and vision. *)
Definition chatRoute (message : string) (tier : ModelTier)
    (attachmentBase64 apiKey gradioEndpoint : option string) : M Reply.t :=
  let msgContent := messageContent message attachmentBase64 in
  session <- getChatSession ;;
  match session with
  | None => initializeChat tier (Some []) apiKey
  | Some _ => ret tt
  end ;;;
  session <- getChatSession ;;
  match session with
  | None =>
      throw (JsError "Cannot read properties of null (reading 'sendMessage')")
  | Some chat =>
      result <- sendMessage chat msgContent ;;
      let replyText := match result with Some t => t | None => EmptyString end in
      let '(replyText, visualPrompt) := triggerParser replyText gradioEndpoint in
      ret (Reply.mk replyText None visualPrompt false None)
  end.

Definition connectionInterrupted (error : Exn) : Reply.t :=
  Reply.mk "Connection interrupted. I'm still here, though." None None true
           (Some (errorText error)).

(** Lines 205-208: the session is restored when there is none or the tier
    changed. *)
Definition restoreSession (tier : ModelTier) (history : list Message)
    (apiKey : option string) : M unit :=
  session <- getChatSession ;;
  current <- getCurrentTier ;;
  match session with
  | Some _ =>
      if ModelTier_eqb current tier then ret tt
      else startChatWithHistory tier history apiKey
  | None => startChatWithHistory tier history apiKey
  end.

(** The [try] of [sendMessageToEve]: the three routes. *)
Definition dispatch (ai : Client) (message : string) (tier : ModelTier)
    (attachmentBase64 : option string) (forceImageGeneration : bool)
    (apiKey gradioEndpoint : option string) : M Reply.t :=
  if hasAttachment attachmentBase64 && forceImageGeneration then
    imageEditRoute ai message tier attachmentBase64
  else if negb (hasAttachment attachmentBase64) && forceImageGeneration then
    imageGenerateRoute message tier apiKey gradioEndpoint
  else
    chatRoute message tier attachmentBase64 apiKey gradioEndpoint.

Definition sendMessageToEve (message : string) (tier : ModelTier)
    (history : list Message) (attachmentBase64 : option string)
    (forceImageGeneration : bool) (apiKey gradioEndpoint : option string)
  : M Reply.t :=
  let key := getApiKey apiKey in
  ai <- newGoogleGenAI key ;;
  restoreSession tier history apiKey ;;;
  tryCatch
    (dispatch ai message tier attachmentBase64 forceImageGeneration apiKey
              gradioEndpoint)
    (fun error => ret (connectionInterrupted error)).

(** ** The decision table of the router *)

(** The three routes, and the table as the specification words it. *)
Inductive Route := IMAGE_EDIT | IMAGE_GENERATE | CHAT.

Definition routeTable (attached explicitIntent : bool) : Route :=
  match attached, explicitIntent with
  | true, true => IMAGE_EDIT
  | false, true => IMAGE_GENERATE
  | _, false => CHAT
  end.

Definition runRoute (r : Route) (ai : Client) (message : string)
    (tier : ModelTier) (attachmentBase64 apiKey gradioEndpoint : option string)
  : M Reply.t :=
  match r with
  | IMAGE_EDIT => imageEditRoute ai message tier attachmentBase64
  | IMAGE_GENERATE => imageGenerateRoute message tier apiKey gradioEndpoint
  | CHAT => chatRoute message tier attachmentBase64 apiKey gradioEndpoint
  end.

(** The calls a direct generation request may make: none to a session, and
    to the model only the rewrite of the instruction. *)
Definition generationCall (message : string) (c : Call) : Prop :=
  match c with
  | SendMessage _ _ => False
  | ChatsCreate _ _ _ _ => False
  | GenerateContent _ _ contents _ =>
      contents = [TextPart (rephraseInstruction message)]
  | _ => True
  end.

(** [l'] extends [l] by calls that all satisfy [P]. *)
Definition extendsBy (P : Call -> Prop) (l l' : list Call) : Prop :=
  exists d, l' = l ++ d /\ Forall P d.

End Service.

(** ** The message list of [App.tsx] *)

(** The user message of a turn (lines 315-320): an absent or empty
    attachment leaves the message without image. *)
Definition userMessage (messageId inputText : string)
    (attachment : option string) : Message :=
  mkMessage messageId user inputText
            (match attachment with
             | Some a => if Js.truthy a then Some a else None
             | None => None
             end)
            None None.

(** The message appended for the outcome of [sendMessageToEve] (lines
    354-416): the reply of the service, flagged when it is an error reply,
    or the fixed text when the call itself was rejected. *)
Definition replyMessage (messageId : string) (response : Result Reply.t)
  : Message :=
  match response with
  | Ok r =>
      if Reply.isError r
      then mkMessage messageId model (Reply.text r) None (Some true) None
      else eveMessage messageId (Reply.text r) (Reply.image r)
                      (Reply.visualPrompt r)
  | Throw _ =>
      mkMessage messageId model
                "An unexpected error occurred. Please try again."
                None (Some true) None
  end.

(** The guard of [handleSendMessage]: nothing to send, or a send under way. *)
Definition sendAborted (inputText : string) (attachment : option string)
    (isThinking : bool) : bool :=
  (negb (Js.truthy (Js.trim inputText)) && negb (hasAttachment attachment))
  || isThinking.

(** Whether the completion of the turn launches a visual job. *)
Definition launchesJob (response : Result Reply.t) : bool :=
  match response with
  | Ok r =>
      negb (Reply.isError r)
      && match Reply.visualPrompt r with
         | Some v => Js.truthy v
         | None => false
         end
  | Throw _ => false
  end.

(** ** [localStorage] and [storageService.ts] *)

Module ApiKeyDef.
Record t := mk { id : string; label : string; key : string }.
End ApiKeyDef.

Definition Items := list (string * string).

(** What can go wrong with the storage of the browser, and the serializer
    of the key list. *)
Class StorageEnv := {
  (** storage unavailable: every access throws *)
  accessFault : option Exn;
  (** a write refused, for instance over quota *)
  quotaFault : Items -> string -> string -> option Exn;
  (** [JSON.stringify] on a list of keys *)
  stringifyKeys : list ApiKeyDef.t -> string
}.

Section Storage.

Context `{StorageEnv}.

Fixpoint lookup (k : string) (items : Items) : option string :=
  match items with
  | [] => None
  | (k', v) :: rest => if String.eqb k' k then Some v else lookup k rest
  end.

Definition without (k : string) (items : Items) : Items :=
  filter (fun kv => negb (String.eqb (fst kv) k)) items.

Definition getItem (k : string) (items : Items) : Result (option string) :=
  match accessFault with
  | Some e => Throw e
  | None => Ok (lookup k items)
  end.

Definition setItem (k v : string) (items : Items) : Result unit * Items :=
  match accessFault with
  | Some e => (Throw e, items)
  | None =>
      match quotaFault items k v with
      | Some e => (Throw e, items)
      | None => (Ok tt, (k, v) :: without k items)
      end
  end.

Definition removeItem (k : string) (items : Items) : Result unit * Items :=
  match accessFault with
  | Some e => (Throw e, items)
  | None => (Ok tt, without k items)
  end.

Definition KEYS_STORAGE_KEY : string := "eve_api_keys".
Definition ACTIVE_KEY_ID_STORAGE_KEY : string := "eve_active_key_id".
Definition GRADIO_URL_STORAGE_KEY : string := "eve_gradio_url".

(** [saveApiKeys]: a failure is logged, not thrown. *)
Definition saveApiKeys (keys : list ApiKeyDef.t) (items : Items) : Items :=
  snd (setItem KEYS_STORAGE_KEY (stringifyKeys keys) items).

Definition saveActiveKeyId (id : option string) (items : Items)
  : Result unit * Items :=
  match id with
  | Some i =>
      if Js.truthy i then setItem ACTIVE_KEY_ID_STORAGE_KEY i items
      else removeItem ACTIVE_KEY_ID_STORAGE_KEY items
  | None => removeItem ACTIVE_KEY_ID_STORAGE_KEY items
  end.

Definition loadActiveKeyId (items : Items) : Result (option string) :=
  getItem ACTIVE_KEY_ID_STORAGE_KEY items.

(** [saveGradioEndpoint]: the trimmed text is stored; a failure is logged. *)
Definition saveGradioEndpoint (url : string) (items : Items) : Items :=
  snd (setItem GRADIO_URL_STORAGE_KEY (Js.trim url) items).

(** [loadGradioEndpoint]: the empty string reads as no endpoint, and so
    does a failure. *)
Definition loadGradioEndpoint (items : Items) : option string :=
  match getItem GRADIO_URL_STORAGE_KEY items with
  | Ok (Some url) => if String.eqb url EmptyString then None else Some url
  | Ok None => None
  | Throw _ => None
  end.

(** ** Settings and key handlers of [App.tsx] *)

(** [handleSaveGradioEndpoint]: the endpoint held by the application, and
    the storage. *)
Definition handleSaveGradioEndpoint (tempGradioEndpoint : string)
    (items : Items) : option string * Items :=
  let url := Js.trim tempGradioEndpoint in
  (if String.eqb url EmptyString then None else Some url,
   saveGradioEndpoint url items).

Record KeyState := mkKeyState {
  apiKeys : list ApiKeyDef.t;
  activeKeyId : option string
}.

(** [id === activeKeyId], the latter possibly null. *)
Definition isActive (id : string) (active : option string) : bool :=
  match active with
  | Some a => String.eqb a id
  | None => false
  end.

(** [apiKeys.find(k => k.id === activeKeyId)?.key]. *)
Definition activeKey (st : KeyState) : option string :=
  match activeKeyId st with
  | Some a =>
      option_map ApiKeyDef.key
        (find (fun k => String.eqb (ApiKeyDef.id k) a) (apiKeys st))
  | None => None
  end.

(** [handleAddKey], [now] being [Date.now().toString()]: the state, and the
    storage with what the handler threw, if anything. *)
Definition handleAddKey (now newKeyLabel newKeyValue : string)
    (st : KeyState) (items : Items) : KeyState * (Result unit * Items) :=
  if negb (Js.truthy (Js.trim newKeyLabel))
     || negb (Js.truthy (Js.trim newKeyValue))
  then (st, (Ok tt, items))
  else
    let newKey :=
      ApiKeyDef.mk now (Js.trim newKeyLabel) (Js.trim newKeyValue) in
    let updatedKeys := apiKeys st ++ [newKey] in
    let items1 := saveApiKeys updatedKeys items in
    if List.length updatedKeys =? 1
    then (mkKeyState updatedKeys (Some (ApiKeyDef.id newKey)),
          saveActiveKeyId (Some (ApiKeyDef.id newKey)) items1)
    else (mkKeyState updatedKeys (activeKeyId st), (Ok tt, items1)).

Definition handleDeleteKey (id : string) (st : KeyState) (items : Items)
  : KeyState * (Result unit * Items) :=
  let updatedKeys :=
    filter (fun k => negb (String.eqb (ApiKeyDef.id k) id)) (apiKeys st) in
  let items1 := saveApiKeys updatedKeys items in
  if isActive id (activeKeyId st)
  then (mkKeyState updatedKeys None, saveActiveKeyId None items1)
  else (mkKeyState updatedKeys (activeKeyId st), (Ok tt, items1)).

Definition handleSelectKey (id : option string) (st : KeyState)
    (items : Items) : KeyState * (Result unit * Items) :=
  (mkKeyState (apiKeys st) id, saveActiveKeyId id items).

(** The active key id, when set, is the id of a listed key. *)
Definition activeListed (st : KeyState) : Prop :=
  match activeKeyId st with
  | Some a => exists k, In k (apiKeys st) /\ ApiKeyDef.id k = a
  | None => True
  end.

End Storage.

(** ** The session vault (IndexedDB) *)

Record StoredSession := mkStored {
  storedId : string;
  storedMessages : list Message;
  storedTier : ModelTier;
  lastUpdated : nat
}.

Definition GLOBAL_SESSION_KEY : string := "global_session".

(** The object store, keyed by the [id] of its records. *)
Definition ObjectStore := list StoredSession.

(** What can go wrong with the database: it does not open, or a
    transaction fails, in which case it changes nothing. *)
Class VaultEnv := {
  openFault : option Exn;
  transactionFault : option Exn
}.

Section Vault.

Context `{VaultEnv}.

Definition storeGet (k : string) (store : ObjectStore) : option StoredSession :=
  find (fun r => String.eqb (storedId r) k) store.

Definition storeDelete (k : string) (store : ObjectStore) : ObjectStore :=
  filter (fun r => negb (String.eqb (storedId r) k)) store.

Definition storePut (r : StoredSession) (store : ObjectStore) : ObjectStore :=
  r :: storeDelete (storedId r) store.

(** [saveSession], [now] being [Date.now()]: failures are thrown again. *)
Definition saveSession (messages : list Message) (tier : ModelTier)
    (now : nat) (store : ObjectStore) : Result unit * ObjectStore :=
  match openFault with
  | Some e => (Throw e, store)
  | None =>
      let data := mkStored GLOBAL_SESSION_KEY messages tier now in
      match transactionFault with
      | Some e => (Throw e, store)
      | None => (Ok tt, storePut data store)
      end
  end.

(** [loadSession]: a database that does not open reads as no session; a
    failed transaction rejects. *)
Definition loadSession (store : ObjectStore) : Result (option StoredSession) :=
  match openFault with
  | Some _ => Ok None
  | None =>
      match transactionFault with
      | Some e => Throw e
      | None => Ok (storeGet GLOBAL_SESSION_KEY store)
      end
  end.

(** [clearSession]: the failure of the transaction is only logged. *)
Definition clearSession (store : ObjectStore) : Result unit * ObjectStore :=
  match openFault with
  | Some e => (Throw e, store)
  | None =>
      match transactionFault with
      | Some _ => (Ok tt, store)
      | None => (Ok tt, storeDelete GLOBAL_SESSION_KEY store)
      end
  end.

Definition welcomeMessage : Message :=
  mkMessage "welcome" model
    "System Stable. Vault Storage Active (IndexedDB). Hello. I'm ready."
    None None None.

(** The message list after hydration (lines 48-79). *)
Definition hydrate (loaded : Result (option StoredSession)) : list Message :=
  match loaded with
  | Ok (Some session) =>
      match storedMessages session with
      | [] => [welcomeMessage]
      | _ :: _ => storedMessages session
      end
  | Ok None => [welcomeMessage]
  | Throw e =>
      [ mkMessage "welcome_error" model
          (Js.concat [ "Error loading session: "; errorText e;
                       ". Starting fresh." ])
          None None None ]
  end.

(** The guard of the saving effect (lines 97-99): something to save, other
    than the lone welcome message. *)
Definition persisted (messages : list Message) : bool :=
  let isDefaultWelcome :=
    match messages with
    | [m] => String.eqb (id m) "welcome"
    | _ => false
    end in
  (0 <? List.length messages) && negb isDefaultWelcome.

End Vault.

(** ** Sample services *)

(** Handles for closed examples: a chat is named by a number. *)
Definition sampleHandles : Handles :=
  {| Client := unit; Chat := nat; GradioApp := unit |}.

(** Services whose answers are fixed per kind of call. *)
Definition sampleServices
    (create : Result nat) (send : Result (option string))
    (predict : Result (option (list GradioItem))) : @Services sampleHandles :=
  @Build_Services sampleHandles
    "You are Eve."
    "a woman with silver hair"
    (fun _ => {| chatModel := "chat-model"; imageModel := "image-model" |})
    None
    (fun _ _ => Ok tt)
    (fun _ _ _ _ _ => create)
    (fun _ _ _ _ _ => Throw (JsError "rewrite unavailable"))
    (fun _ _ _ => send)
    (fun _ => Ok tt)
    (fun _ _ => Ok tt)
    (fun _ _ _ _ _ _ _ _ => predict).

(** An SDK that refuses to open any context. *)
Definition refusingServices : @Services sampleHandles :=
  sampleServices (Throw (JsError "fetch failed")) (Ok None) (Ok None).

(** Services whose chat call is rejected. *)
Definition rejectingServices : @Services sampleHandles :=
  sampleServices (Ok 7) (Throw (JsError "deadline exceeded")) (Ok None).

Definition freshWorld : @World sampleHandles :=
  @mkWorld sampleHandles None free [].

Definition liveWorld : @World sampleHandles :=
  @mkWorld sampleHandles (Some 7) free [].

(** Services of a working installation: the model answers with a trigger,
    the image backend with one URL. *)
Definition workingServices : @Services sampleHandles :=
  sampleServices (Ok 1) (Ok (Some "hey! [SELFIE: waving]"))
                 (Ok (Some [ItemObject (Some "https://x/y.png")])).

(** ** Sample logs *)

Definition log_c1 : list Message :=
  [ mkMessage "1" model "welcome" None None None;
    mkMessage "2" user "hi" None None None;
    mkMessage "3" user "again" None None None ].

Definition msgA : Message := mkMessage "10" user "first" None None None.
Definition msgB : Message :=
  mkMessage "11" user EmptyString (Some "data:image/png;base64,iVBORw0") None (Some false).
Definition msgC : Message := mkMessage "12" model EmptyString None (Some false) None.

Definition log_c8 : list Message :=
  [ mkMessage "1" user "hi" None None None;
    mkMessage "2" model "hello" None None None;
    mkMessage "3" user "look" (Some "data:image/jpeg;base64,QUJD") None None;
    mkMessage "4" model EmptyString None None (Some false) ].

Definition session_c5 : list Message :=
  [ mkMessage "1700000000000" user "hi" None None None;
    mkMessage "1700000000001" model "hey!" None None (Some true) ].

(** ** Shapes of turn sequences *)

(** Adjacent turns have different roles. *)
Fixpoint alternatingTurns (ts : list Turn) : bool :=
  match ts with
  | a :: ((b :: _) as rest) =>
      negb (Role_eqb (turnRole a) (turnRole b)) && alternatingTurns rest
  | _ => true
  end.

(** All the parts of a turn sequence, in order. *)
Definition allParts (ts : list Turn) : list Part := flat_map parts ts.

(** ** Reading a model response as lists *)

(** The data URLs of the inline parts of a response, in order. *)
Definition inlineUrls (ps : list ResponsePart) : list string :=
  flat_map (fun p => match partInlineData p with
                     | Some inline => [dataUrlOf inline]
                     | None => []
                     end) ps.

(** The texts of the parts that are not inline data, in order. *)
Definition plainTexts (ps : list ResponsePart) : list string :=
  flat_map (fun p => match partInlineData p, partText p with
                     | None, Some t => [t]
                     | _, _ => []
                     end) ps.

Definition log_x4 : list Message :=
  [ mkMessage "welcome" model "System Stable." None None None;
    mkMessage "5" user "   " (Some "https://example.org/a.png") None None;
    mkMessage "6" user "lost" None (Some true) None ].


(** A storage that takes every write, and a vault without faults. *)
Definition plainStorage : StorageEnv :=
  {| accessFault := None;
     quotaFault := fun _ _ _ => None;
     stringifyKeys := fun keys => Js.concat (map ApiKeyDef.id keys) |}.

Definition plainVault : VaultEnv :=
  {| openFault := None; transactionFault := None |}.

Definition keys_x23 : KeyState :=
  mkKeyState [ApiKeyDef.mk "17" "work" "AIza-1"; ApiKeyDef.mk "18" "home" "AIza-2"]
             (Some "18").

(** * Properties *)

(** ** History reconciliation *)

Lemma Role_eqb_eq (a b : Role) : Role_eqb a b = true <-> a = b.
Proof. destruct a, b; simpl; split; congruence. Qed.

Lemma Role_eqb_refl (a : Role) : Role_eqb a a = true.
Proof. now destruct a. Qed.

Lemma mergeLoop_acc (cur : Turn) (rest merged : list Turn) :
  mergeLoop cur rest merged = merged ++ mergeLoop cur rest [].
Proof.
  revert cur merged.
  induction rest as [|nxt rest IH]; intros cur merged; simpl.
  - reflexivity.
  - destruct (Role_eqb (turnRole nxt) (turnRole cur)).
    + apply IH.
    + rewrite (IH nxt (merged ++ [cur])), (IH nxt [cur]).
      now rewrite <- app_assoc.
Qed.

Lemma last_default {A : Type} (l : list A) (d d' : A) :
  l <> [] -> last l d = last l d'.
Proof.
  induction l as [|a l IH]; intros Hne; [congruence|].
  destruct l as [|b l]; [reflexivity|].
  change (last (b :: l) d = last (b :: l) d'). apply IH. discriminate.
Qed.

Lemma dropLeadingModel_head (ts : list Turn) :
  forall t rest, dropLeadingModel ts = t :: rest -> turnRole t = user.
Proof.
  induction ts as [|a ts IH]; simpl; intros t rest H.
  - discriminate.
  - destruct (turnRole a) eqn:Ha.
    + now injection H as <- _.
    + eauto.
Qed.

Lemma closeOnModel_head (t : Turn) (rest : list Turn) :
  exists rest', closeOnModel (t :: rest) = t :: rest'.
Proof.
  unfold closeOnModel.
  destruct (turnRole (last (t :: rest) syntheticTurn)); simpl; eauto.
Qed.

Lemma closeOnModel_last (ts : list Turn) (d : Turn) :
  ts <> [] -> turnRole (last (closeOnModel ts) d) = model.
Proof.
  intros Hne. unfold closeOnModel.
  destruct ts as [|t rest]; [congruence|].
  destruct (turnRole (last (t :: rest) syntheticTurn)) eqn:E.
  - now rewrite last_last.
  - rewrite <- E. f_equal. apply last_default. discriminate.
Qed.


(** C1. Whatever the message log, a non-empty reconciled sequence opens on a
    user turn and closes on a model turn. *)
Theorem reconcile_user_first_model_last (history : list Message) :
  reconcileHistory history <> [] ->
  option_map turnRole (hd_error (reconcileHistory history)) = Some user
  /\ option_map turnRole (hd_error (rev (reconcileHistory history))) = Some model.
Proof.
  unfold reconcileHistory.
  set (ts := dropLeadingModel (mergePass (flatten history))).
  intros Hne.
  destruct ts as [|t rest] eqn:Ets; [now elim Hne|].
  pose proof (dropLeadingModel_head _ _ _ Ets) as Hu.
  split.
  - destruct (closeOnModel_head t rest) as [rest' ->]. simpl. now rewrite Hu.
  - assert (Hl : turnRole (last (closeOnModel (t :: rest)) t) = model)
      by (apply closeOnModel_last; discriminate).
    destruct (closeOnModel_head t rest) as [rest' E]. rewrite E in *.
    destruct (exists_last (l := t :: rest')) as (l' & z & El); [discriminate|].
    rewrite El in *. rewrite last_last in Hl.
    rewrite rev_app_distr. simpl. now rewrite Hl.
Qed.

Lemma reconcile_user_first_model_last_witness :
  reconcileHistory log_c1 <> []
  /\ option_map turnRole (hd_error (reconcileHistory log_c1)) = Some user
  /\ option_map turnRole (hd_error (rev (reconcileHistory log_c1))) = Some model.
Proof.
  assert (H : reconcileHistory log_c1 <> []) by (vm_compute; discriminate).
  split; [exact H|].
  exact (reconcile_user_first_model_last log_c1 H).
Defined.

Lemma flatten_app (l1 l2 : list Message) :
  flatten (l1 ++ l2) = flatten l1 ++ flatten l2.
Proof.
  induction l1 as [|h l1 IH]; simpl; [reflexivity|].
  now rewrite IH, app_assoc.
Qed.

Lemma flatten_filter (history : list Message) :
  flatten (filter notError history) = flatten history.
Proof.
  induction history as [|h rest IH]; simpl; [reflexivity|].
  unfold notError at 1. destruct (flag (isError h)) eqn:E; simpl.
  - unfold flattenEntry. now rewrite E.
  - now rewrite IH.
Qed.

(** Every flattened turn is the image of an entry without the error flag. *)
Lemma flatten_origin (history : list Message) (t : Turn) :
  In t (flatten history) ->
  exists h, In h history /\ flag (isError h) = false /\ t = entryTurn h.
Proof.
  induction history as [|h rest IH]; simpl; [tauto|].
  rewrite in_app_iff. intros [Hin|Hin].
  - exists h. split; [now left|].
    unfold flattenEntry in Hin. unfold entryTurn, entryParts.
    destruct (flag (isError h)); [contradiction|].
    destruct (role h).
    + destruct (userParts h); [contradiction|].
      destruct Hin as [<-|[]]. now split.
    + destruct Hin as [<-|[]]. now split.
  - destruct (IH Hin) as (h' & Hh' & He & Ht). exists h'. auto.
Qed.

(** The merge pass moves parts between turns but invents none. *)
Lemma mergeLoop_parts (rest : list Turn) :
  forall cur merged t p,
    In t (mergeLoop cur rest merged) -> In p (parts t) ->
    exists t0, In t0 (merged ++ cur :: rest) /\ In p (parts t0).
Proof.
  induction rest as [|nxt rest IH]; simpl; intros cur merged t p Ht Hp.
  - eauto.
  - destruct (Role_eqb (turnRole nxt) (turnRole cur)).
    + destruct (IH _ _ _ _ Ht Hp) as (t0 & Hin & Hp0).
      rewrite in_app_iff in Hin. simpl in Hin.
      destruct Hin as [Hin|[<-|Hin]].
      * exists t0. split; [|exact Hp0]. rewrite in_app_iff. now left.
      * simpl in Hp0. rewrite in_app_iff in Hp0. destruct Hp0 as [Hc|Hn].
        -- exists cur. split; [|exact Hc]. rewrite in_app_iff. right. now left.
        -- exists nxt. split; [|exact Hn]. rewrite in_app_iff. right. right. now left.
      * exists t0. split; [|exact Hp0]. rewrite in_app_iff. right. right. now right.
    + destruct (IH _ _ _ _ Ht Hp) as (t0 & Hin & Hp0).
      exists t0. split; [|exact Hp0].
      now rewrite <- app_assoc in Hin.
Qed.

Lemma mergePass_parts (ts : list Turn) (t : Turn) (p : Part) :
  In t (mergePass ts) -> In p (parts t) ->
  exists t0, In t0 ts /\ In p (parts t0).
Proof.
  destruct ts as [|first rest]; simpl; [tauto|].
  intros Ht Hp. exact (mergeLoop_parts _ _ _ _ _ Ht Hp).
Qed.

Lemma dropLeadingModel_incl (ts : list Turn) (t : Turn) :
  In t (dropLeadingModel ts) -> In t ts.
Proof.
  induction ts as [|a ts IH]; simpl; [tauto|].
  destruct (turnRole a); simpl; tauto.
Qed.

Lemma closeOnModel_incl (ts : list Turn) (t : Turn) :
  In t (closeOnModel ts) -> In t ts \/ t = syntheticTurn.
Proof.
  unfold closeOnModel. destruct ts as [|a ts]; [tauto|].
  destruct (turnRole (last (a :: ts) syntheticTurn)); [|tauto].
  rewrite in_app_iff. simpl. intuition.
Qed.

(** C6. An entry with the error flag set contributes nothing: the reconciled
    sequence is that of the log without its error entries, and each of its
    parts is the synthetic placeholder or a part of an entry whose flag is
    not set. *)
Theorem reconcile_drops_errors (history : list Message) :
  reconcileHistory history = reconcileHistory (filter notError history)
  /\ (forall t p,
        In t (reconcileHistory history) -> In p (parts t) ->
        p = TextPart placeholder
        \/ exists h, In h history /\ flag (isError h) = false
                     /\ In p (entryParts h)).
Proof.
  split.
  - unfold reconcileHistory. now rewrite flatten_filter.
  - intros t p Ht Hp. unfold reconcileHistory in Ht.
    apply closeOnModel_incl in Ht. destruct Ht as [Ht| ->].
    + apply dropLeadingModel_incl in Ht.
      destruct (mergePass_parts _ _ _ Ht Hp) as (t0 & Hin & Hp0).
      destruct (flatten_origin _ _ Hin) as (h & Hh & He & ->).
      right. exists h. auto.
    + left. simpl in Hp. now destruct Hp as [<-|[]].
Qed.

(** C7. The log [user(A); user(B); model(C)], free of error flags and with
    parts for each entry, reconciles to exactly two turns: a user turn with
    the parts of A followed by those of B, then a model turn with the parts
    of C. *)
Theorem reconcile_merge_rule (A B C : Message) :
  role A = user -> role B = user -> role C = model ->
  flag (isError A) = false -> flag (isError B) = false ->
  flag (isError C) = false ->
  entryParts A <> [] -> entryParts B <> [] ->
  reconcileHistory [A; B; C]
  = [ mkTurn user (entryParts A ++ entryParts B);
      mkTurn model (entryParts C) ].
Proof.
  intros RA RB RC EA EB EC PA PB.
  unfold reconcileHistory, entryParts in *. simpl.
  unfold flattenEntry. rewrite EA, EB, EC, RA, RB, RC in *.
  destruct (userParts A) as [|a pa]; [congruence|].
  destruct (userParts B) as [|b pb]; [congruence|].
  reflexivity.
Qed.

Lemma reconcile_merge_rule_witness :
  reconcileHistory [msgA; msgB; msgC]
  = [ mkTurn user [TextPart "first"; InlineData "image/png" "iVBORw0"];
      mkTurn model [TextPart "..."] ].
Proof.
  refine (eq_trans (reconcile_merge_rule msgA msgB msgC _ _ _ _ _ _ _ _) _);
    try reflexivity; vm_compute; discriminate.
Defined.

Lemma alternates_cons (a b : Message) (l : list Message) :
  alternates (a :: b :: l) = true ->
  Role_eqb (role b) (role a) = false /\ alternates (b :: l) = true.
Proof.
  simpl. rewrite andb_true_iff, negb_true_iff.
  intros [H1 H2]. split; [|exact H2].
  destruct (role a), (role b); simpl in *; congruence.
Qed.

Lemma flatten_valid (l : list Message) :
  Forall (fun h => flag (isError h) = false) l ->
  Forall (fun h => entryParts h <> []) l ->
  flatten l = map entryTurn l.
Proof.
  induction 1 as [|h l He _ IH]; intros Hp; [reflexivity|].
  inversion Hp as [|? ? Hh Hl]; subst. simpl. rewrite (IH Hl).
  unfold flattenEntry, entryTurn, entryParts in *. rewrite He.
  destruct (role h); [|reflexivity].
  destruct (userParts h); [congruence|reflexivity].
Qed.

Lemma mergeLoop_alternating (l : list Message) :
  forall h, alternates (h :: l) = true ->
  mergeLoop (entryTurn h) (map entryTurn l) [] = map entryTurn (h :: l).
Proof.
  induction l as [|b l IH]; intros h Ha; [reflexivity|].
  destruct (alternates_cons _ _ _ Ha) as [Hr Hrest].
  cbn [map mergeLoop]. unfold entryTurn at 1 2. cbn [turnRole]. rewrite Hr.
  rewrite mergeLoop_acc, (IH b Hrest). reflexivity.
Qed.

Lemma hd_rev_last {A : Type} (l : list A) (x d : A) :
  hd_error (rev l) = Some x -> last l d = x.
Proof.
  destruct l as [|a l] using rev_ind; [discriminate|].
  rewrite rev_app_distr, last_last. simpl. congruence.
Qed.

(** C8. A log that is already valid (user first, model last, strictly
    alternating, no error entries, every entry with a part) reconciles to
    itself: one turn per entry, with the role and the parts of the entry;
    ending on a model entry, it receives no synthetic turn. *)
Theorem reconcile_valid_log (history : list Message) :
  validLog history ->
  reconcileHistory history = map entryTurn history.
Proof.
  intros [Hf Hl Ha He Hp]. unfold reconcileHistory.
  rewrite (flatten_valid _ He Hp).
  destruct history as [|h l]; [discriminate|].
  cbn [map mergePass]. rewrite (mergeLoop_alternating _ _ Ha).
  simpl in Hf. injection Hf as Hf.
  assert (Hd : dropLeadingModel (map entryTurn (h :: l)) = map entryTurn (h :: l))
    by (cbn [map dropLeadingModel entryTurn turnRole]; now rewrite Hf).
  rewrite Hd.
  destruct (hd_error (rev (h :: l))) as [x|] eqn:Ex; [|discriminate].
  simpl in Hl. injection Hl as Hl.
  assert (El : last (map entryTurn (h :: l)) syntheticTurn = entryTurn x).
  { apply hd_rev_last. rewrite <- map_rev.
    destruct (rev (h :: l)); simpl in *; congruence. }
  unfold closeOnModel. rewrite El. cbn [entryTurn turnRole]. rewrite Hl.
  reflexivity.
Qed.

Lemma log_c8_valid : validLog log_c8.
Proof.
  constructor; try reflexivity;
    repeat constructor; vm_compute; discriminate.
Defined.

Lemma reconcile_valid_log_witness :
  reconcileHistory log_c8 = map entryTurn log_c8.
Proof. exact (reconcile_valid_log log_c8 log_c8_valid). Defined.

(** ** Visual trigger protocol *)

(** C3. On the reply "hey [SELFIE: red dress] bye" the trigger parser gives,
    with an image backend configured, the text "hey  bye" and the cue
    "red dress"; with none configured, the same stripped text followed by
    the fixed unavailability note, and no cue. *)
Theorem trigger_parser_red_dress (gradioEndpoint : option string) :
  triggerParser "hey [SELFIE: red dress] bye" gradioEndpoint
  = if endpointMissing gradioEndpoint
    then (String.append "hey  bye" unavailableNote, None)
    else ("hey  bye", Some "red dress").
Proof.
  unfold triggerParser.
  change (selfieMatch "hey [SELFIE: red dress] bye")
    with (Some (Some "red dress")).
  change (Js.trim (removeSelfies 0 "hey [SELFIE: red dress] bye"))
    with "hey  bye".
  reflexivity.
Qed.

(** ** Visual job completion *)

Lemma patchById_nth (messageId : string) (patch : Message -> Message)
    (prev : list Message) (i : nat) :
  nth_error (patchById messageId patch prev) i
  = option_map (fun m => if String.eqb (id m) messageId then patch m else m)
               (nth_error prev i).
Proof. unfold patchById. apply nth_error_map. Qed.

Lemma patchById_absent (messageId : string) (patch : Message -> Message)
    (prev : list Message) :
  (forall m, In m prev -> id m <> messageId) ->
  patchById messageId patch prev = prev.
Proof.
  unfold patchById. induction prev as [|m prev IH]; intros Habs; simpl.
  - reflexivity.
  - destruct (String.eqb_spec (id m) messageId) as [E|_].
    + elim (Habs m (or_introl eq_refl) E).
    + f_equal. apply IH. intros m' Hm'. apply Habs. now right.
Qed.

Lemma completeVisualJob_patch (messageId : string) (o : JobOutcome)
    (prev : list Message) :
  completeVisualJob messageId o prev
  = patchById messageId
      (match jobImage o with
       | Some g => withImage g
       | None => withoutLoading
       end) prev.
Proof.
  destruct o as [[g|]|e]; simpl; try reflexivity.
  now destruct (Js.truthy g).
Qed.

(** C5. When a visual job settles, the messages keep their number and their
    order; with an image, each message carrying the target id receives the
    image and has its pending flag cleared; without one, only its pending
    flag is cleared, text and image as they were; every message with another
    id is unchanged; and when no message carries the target id the list is
    unchanged. *)
Theorem completeVisualJob_frame (messageId : string) (o : JobOutcome)
    (prev : list Message) :
  let next := completeVisualJob messageId o prev in
  List.length next = List.length prev
  /\ (forall i m, nth_error prev i = Some m -> id m = messageId ->
        nth_error next i
        = Some match jobImage o with
               | Some g =>
                   mkMessage (id m) (role m) (text m) (Some g) (isError m)
                             (Some false)
               | None =>
                   mkMessage (id m) (role m) (text m) (image m) (isError m)
                             (Some false)
               end)
  /\ (forall i m, nth_error prev i = Some m -> id m <> messageId ->
        nth_error next i = Some m)
  /\ ((forall m, In m prev -> id m <> messageId) -> next = prev).
Proof.
  intros next. subst next. rewrite completeVisualJob_patch.
  repeat split.
  - unfold patchById. apply length_map.
  - intros i m Hi Hid. rewrite patchById_nth, Hi. simpl.
    apply String.eqb_eq in Hid. rewrite Hid.
    now destruct (jobImage o).
  - intros i m Hi Hid. rewrite patchById_nth, Hi. simpl.
    apply String.eqb_neq in Hid. now rewrite Hid.
  - apply patchById_absent.
Qed.

Lemma completeVisualJob_frame_witness :
  completeVisualJob "1700000000001" (Resolved (Some "https://x/y.png")) session_c5
  = [ mkMessage "1700000000000" user "hi" None None None;
      mkMessage "1700000000001" model "hey!" (Some "https://x/y.png") None
                (Some false) ]
  /\ completeVisualJob "1700000000001" (Rejected (JsError "down")) session_c5
     = [ mkMessage "1700000000000" user "hi" None None None;
         mkMessage "1700000000001" model "hey!" None None (Some false) ]
  /\ completeVisualJob "42" (Resolved (Some "https://x/y.png")) session_c5
     = session_c5.
Proof.
  split; [reflexivity|]. split; [reflexivity|].
  apply (completeVisualJob_frame "42" (Resolved (Some "https://x/y.png"))
           session_c5).
  intros m [<-|[<-|[]]]; vm_compute; discriminate.
Defined.

(** ** Session initialisation *)

Section SessionProperties.

Context `{Services}.

Lemma openSeeded_handle (tier : ModelTier) (history : option (list Turn))
    (apiKey : option string) (w w' : World) :
  openSeeded tier history apiKey w = (Ok tt, w') ->
  exists c, chatSession w' = Some c.
Proof.
  unfold openSeeded, bind, newGoogleGenAI, chatsCreate, perform,
    setCurrentTier, setChatSession. simpl.
  destruct (sdkNewClient _ _) as [ai|e]; [|discriminate].
  destruct (sdkChatsCreate _ _ _ _ _) as [c|e]; [|discriminate].
  intros [= <-]. now exists c.
Qed.

Lemma openSeeded_throw (tier : ModelTier) (history : option (list Turn))
    (apiKey : option string) (w w' : World) (e : Exn) :
  openSeeded tier history apiKey w = (Throw e, w') ->
  chatSession w' = chatSession w.
Proof.
  unfold openSeeded, bind, newGoogleGenAI, chatsCreate, perform,
    setCurrentTier, setChatSession. simpl.
  destruct (sdkNewClient _ _) as [ai|e1]; [|now intros [= _ <-]].
  destruct (sdkChatsCreate _ _ _ _ _) as [c|e1]; [discriminate|].
  now intros [= _ <-].
Qed.

(** The retry, call by call. *)
Lemma openEmpty_run (tier : ModelTier) (apiKey : option string) (w : World) :
  openEmpty tier apiKey w
  = let w1 := after w (NewClient (getApiKey apiKey)) in
    match sdkNewClient (calls w) (getApiKey apiKey) with
    | Throw e => (Throw e, w1)
    | Ok ai =>
        let create := ChatsCreate ai (chatModel (MODELS tier)) fallbackConfig None in
        match sdkChatsCreate (calls w1) ai (chatModel (MODELS tier))
                fallbackConfig None with
        | Throw e => (Throw e, after w1 create)
        | Ok c =>
            (Ok tt, mkWorld (Some c) (currentTier w) (calls w1 ++ [create]))
        end
    end.
Proof.
  unfold openEmpty, bind, newGoogleGenAI, chatsCreate, perform,
    setChatSession, after. simpl.
  destruct (sdkNewClient _ _) as [ai|e]; [|reflexivity].
  now destruct (sdkChatsCreate _ _ _ _ _) as [c|e].
Qed.

Lemma initializeChat_handle (tier : ModelTier) (history : option (list Turn))
    (apiKey : option string) (w w' : World) :
  initializeChat tier history apiKey w = (Ok tt, w') ->
  exists c, chatSession w' = Some c.
Proof.
  unfold initializeChat, tryCatch.
  destruct (openSeeded tier history apiKey w) as [[[]|e] w1] eqn:E.
  - intros [= <-]. exact (openSeeded_handle _ _ _ _ _ E).
  - rewrite openEmpty_run. simpl.
    destruct (sdkNewClient _ _) as [ai|e1]; [|discriminate].
    destruct (sdkChatsCreate _ _ _ _ _) as [c|e1]; [|discriminate].
    intros [= <-]. now exists c.
Qed.

Lemma startChatWithHistory_handle (tier : ModelTier) (history : list Message)
    (apiKey : option string) (w w' : World) :
  startChatWithHistory tier history apiKey w = (Ok tt, w') ->
  exists c, chatSession w' = Some c.
Proof.
  unfold startChatWithHistory. destruct history as [|h rest].
  - apply initializeChat_handle.
  - unfold tryCatch.
    destruct (initializeChat tier (Some (reconcileHistory (h :: rest))) apiKey w)
      as [[[]|e] w1] eqn:E.
    + intros [= <-]. exact (initializeChat_handle _ _ _ _ _ E).
    + apply initializeChat_handle.
Qed.

Lemma restoreSession_handle (tier : ModelTier) (history : list Message)
    (apiKey : option string) (w w' : World) :
  restoreSession tier history apiKey w = (Ok tt, w') ->
  exists c, chatSession w' = Some c.
Proof.
  unfold restoreSession, bind, getChatSession, getCurrentTier.
  destruct (chatSession w) as [c|] eqn:Ec.
  - destruct (ModelTier_eqb (currentTier w) tier).
    + intros [= <-]. now exists c.
    + apply startChatWithHistory_handle.
  - apply startChatWithHistory_handle.
Qed.

(** C4, as the code has it. When opening the context seeded with the given
    turns succeeds, the call returns with that handle. When it fails, the
    opening is retried once, without turns and with the default generation
    parameters, and the outcome of the retry is the outcome of the call:
    success leaves the new handle in place, and failure is thrown to the
    caller, the previous handle (if any) staying where it was. Whenever the
    call returns, a handle exists. *)
Theorem initializeChat_retries_once (tier : ModelTier)
    (history : option (list Turn)) (apiKey : option string) (w : World) :
  let key := getApiKey apiKey in
  let mdl := chatModel (MODELS tier) in
  match openSeeded tier history apiKey w with
  | (Ok _, w1) =>
      initializeChat tier history apiKey w = (Ok tt, w1)
      /\ chatSession w1 <> None
  | (Throw _, w1) =>
      chatSession w1 = chatSession w
      /\ match sdkNewClient (calls w1) key with
         | Throw e =>
             initializeChat tier history apiKey w
             = (Throw e, after w1 (NewClient key))
         | Ok ai =>
             let w2 := after w1 (NewClient key) in
             let retry := ChatsCreate ai mdl fallbackConfig None in
             match sdkChatsCreate (calls w2) ai mdl fallbackConfig None with
             | Throw e =>
                 initializeChat tier history apiKey w
                 = (Throw e, after w2 retry)
             | Ok c =>
                 initializeChat tier history apiKey w
                 = (Ok tt,
                    mkWorld (Some c) (currentTier w1) (calls w2 ++ [retry]))
             end
         end
  end.
Proof.
  intros key mdl. unfold initializeChat, tryCatch.
  destruct (openSeeded tier history apiKey w) as [[[]|e] w1] eqn:E.
  - split; [reflexivity|].
    destruct (openSeeded_handle _ _ _ _ _ E) as [c ->]. discriminate.
  - split; [exact (openSeeded_throw _ _ _ _ _ _ E)|].
    rewrite openEmpty_run. subst key mdl. simpl.
    destruct (sdkNewClient _ _) as [ai|e1]; [|reflexivity].
    now destruct (sdkChatsCreate _ _ _ _ _) as [c|e1].
Qed.

End SessionProperties.

(** C4, as stated, fails: with an SDK that refuses to open any context, the
    retry fails as the first opening did, the error reaches the caller and
    no handle exists afterwards. *)
Lemma initializeChat_propagates :
  @initializeChat _ refusingServices free (Some []) None freshWorld
  = (Throw (JsError "fetch failed"),
     @mkWorld sampleHandles None free
       [ @NewClient sampleHandles EmptyString;
         @ChatsCreate sampleHandles tt "chat-model"
           (@seededConfig _ refusingServices) (Some []);
         @NewClient sampleHandles EmptyString;
         @ChatsCreate sampleHandles tt "chat-model"
           (@fallbackConfig _ refusingServices) None ]).
Proof. reflexivity. Qed.

(** ** Message routing *)

Section RoutingProperties.

Context `{Services}.

Lemma extendsBy_refl (P : Call -> Prop) (l : list Call) : extendsBy P l l.
Proof. exists []. split; [now rewrite app_nil_r|constructor]. Qed.

Lemma extendsBy_step (P : Call -> Prop) (l l' : list Call) (c : Call) :
  extendsBy P l l' -> P c -> extendsBy P l (l' ++ [c]).
Proof.
  intros (d & -> & Hd) Hc. exists (d ++ [c]). split.
  - now rewrite app_assoc.
  - apply Forall_app. split; [exact Hd|]. now constructor.
Qed.

Lemma generateWithGradio_calls (P : Call -> Prop) (prompt : string)
    (endpoint : option string) (aspect : AspectRatio) (w : World) :
  (forall c, match c with
             | GradioImport | GradioConnect _ | GradioPredict _ _ _ _ _ _ _ => P c
             | _ => True
             end) ->
  extendsBy P (calls w) (calls (snd (generateWithGradio prompt endpoint aspect w))).
Proof.
  intros HP. unfold generateWithGradio.
  destruct (endpointMissing endpoint); [apply extendsBy_refl|].
  unfold tryCatch, bind, perform, throw, ret. simpl.
  destruct (gradioImport (calls w)); simpl.
  - destruct (gradioConnect _ _); simpl.
    + destruct (gradioPredict _ _ _ _ _ _ _ _) as [r|e]; simpl.
      * destruct (firstUrl r); simpl;
          repeat (apply extendsBy_step; [|apply (HP GradioImport)
                                          || apply (HP (GradioConnect _))
                                          || apply (HP (GradioPredict _ _ _ _ _ _ _))]);
          apply extendsBy_refl.
      * repeat (apply extendsBy_step; [|apply (HP GradioImport)
                                        || apply (HP (GradioConnect _))
                                        || apply (HP (GradioPredict _ _ _ _ _ _ _))]);
          apply extendsBy_refl.
    + repeat (apply extendsBy_step; [|apply (HP GradioImport)
                                      || apply (HP (GradioConnect _))]);
        apply extendsBy_refl.
  - apply extendsBy_step; [apply extendsBy_refl|apply (HP GradioImport)].
Qed.

(** ROUTE 3 with a live session: one call, to that session. *)
Lemma chatRoute_run (message : string) (tier : ModelTier)
    (attachmentBase64 apiKey gradioEndpoint : option string) (w : World)
    (chat : Chat) :
  chatSession w = Some chat ->
  let content := messageContent message attachmentBase64 in
  chatRoute message tier attachmentBase64 apiKey gradioEndpoint w
  = match sdkSendMessage (calls w) chat content with
    | Ok result =>
        let parsed :=
          triggerParser (match result with Some t => t | None => EmptyString end)
                        gradioEndpoint in
        (Ok (Reply.mk (fst parsed) None (snd parsed) false None),
         after w (SendMessage chat content))
    | Throw e => (Throw e, after w (SendMessage chat content))
    end.
Proof.
  intros Hs content. unfold chatRoute, bind, getChatSession, ret.
  rewrite Hs. simpl. rewrite Hs.
  unfold sendMessage, perform. simpl. fold content.
  destruct (sdkSendMessage (calls w) chat content) as [result|e]; [|reflexivity].
  now destruct (triggerParser _ gradioEndpoint).
Qed.

(** The rewrite request, call by call. *)
Lemma rephrasePromptForGradio_run (userMessage : string) (tier : ModelTier)
    (apiKey : option string) (w : World) :
  let key := getApiKey apiKey in
  rephrasePromptForGradio userMessage tier apiKey w
  = match sdkNewClient (calls w) key with
    | Throw e => (Throw e, after w (NewClient key))
    | Ok ai =>
        let w1 := after w (NewClient key) in
        let mdl := chatModel (MODELS tier) in
        let contents := [TextPart (rephraseInstruction userMessage)] in
        (Ok match sdkGenerateContent (calls w1) ai mdl contents rephraseConfig with
            | Ok response => rephrasedOr userMessage response
            | Throw _ => userMessage
            end,
         after w1 (GenerateContent ai mdl contents rephraseConfig))
    end.
Proof.
  intros key. subst key.
  unfold rephrasePromptForGradio, bind, tryCatch, newGoogleGenAI,
    generateContent, perform, ret, after. simpl.
  destruct (sdkNewClient _ _) as [ai|e]; [|reflexivity].
  now destruct (sdkGenerateContent _ _ _ _ _).
Qed.

(** C2. The send operation, once the client is made and the session
    restored, runs the route the decision table gives for (attachment,
    explicit intent). With both, the only call is the image edit, carrying
    the attachment and the instruction. With the intent alone, no call goes
    to a session. Without the intent, the only call goes to the live
    session, and an attachment travels in it as the binary part placed
    before the text. *)
Theorem send_follows_route_table (message : string) (tier : ModelTier)
    (history : list Message) (attachmentBase64 : option string)
    (forceImageGeneration : bool) (apiKey gradioEndpoint : option string) :
  let attached := hasAttachment attachmentBase64 in
  (forall w,
     sendMessageToEve message tier history attachmentBase64
       forceImageGeneration apiKey gradioEndpoint w
     = bind (newGoogleGenAI (getApiKey apiKey))
         (fun ai =>
            bind (restoreSession tier history apiKey)
              (fun _ =>
                 tryCatch
                   (runRoute (routeTable attached forceImageGeneration) ai
                      message tier attachmentBase64 apiKey gradioEndpoint)
                   (fun error => ret (connectionInterrupted error)))) w)
  /\ (forall ai w,
        attached = true -> forceImageGeneration = true ->
        calls (snd (dispatch ai message tier attachmentBase64
                      forceImageGeneration apiKey gradioEndpoint w))
        = calls w
          ++ [GenerateContent ai (imageModel (MODELS tier))
                [attachmentPart attachmentBase64; TextPart message]
                imageEditConfig])
  /\ (forall ai w,
        attached = false -> forceImageGeneration = true ->
        extendsBy (generationCall message) (calls w)
          (calls (snd (dispatch ai message tier attachmentBase64
                         forceImageGeneration apiKey gradioEndpoint w))))
  /\ (forall ai w chat,
        forceImageGeneration = false -> chatSession w = Some chat ->
        calls (snd (dispatch ai message tier attachmentBase64
                      forceImageGeneration apiKey gradioEndpoint w))
        = calls w
          ++ [SendMessage chat
                (if attached
                 then ContentParts [attachmentPart attachmentBase64;
                                    TextPart message]
                 else ContentText message)]).
Proof.
  intros attached. subst attached. repeat split.
  - intros w. unfold sendMessageToEve, dispatch, bind, tryCatch.
    destruct (newGoogleGenAI (getApiKey apiKey) w) as [[ai|e] w0]; [|reflexivity].
    destruct (restoreSession tier history apiKey w0) as [[[]|e] w1]; [|reflexivity].
    now destruct (hasAttachment attachmentBase64), forceImageGeneration.
  - intros ai w Ha ->. unfold dispatch. rewrite Ha. simpl.
    unfold imageEditRoute, bind, generateContent, perform, ret. simpl.
    now destruct (sdkGenerateContent _ _ _ _ _).
  - intros ai w Ha ->. unfold dispatch. rewrite Ha. simpl.
    unfold imageGenerateRoute, bind.
    assert (Hprompt :
      extendsBy (generationCall message) (calls w)
        (calls (snd (generationPrompt message tier apiKey w)))).
    { unfold generationPrompt. destruct (asksForSelfie message).
      - apply extendsBy_refl.
      - rewrite rephrasePromptForGradio_run. simpl.
        destruct (sdkNewClient _ _) as [ai'|e]; simpl.
        + repeat (apply extendsBy_step; [|simpl; auto]). apply extendsBy_refl.
        + apply extendsBy_step; [apply extendsBy_refl|exact I]. }
    destruct (generationPrompt message tier apiKey w) as [[prompt|e] w1];
      [|exact Hprompt].
    simpl in Hprompt. destruct Hprompt as (d1 & E1 & F1).
    assert (Hsub :
      extendsBy (generationCall message) (calls w1)
        (calls (snd (submitPrompt prompt gradioEndpoint w1)))).
    { unfold submitPrompt, tryCatch, bind, ret, throw.
      pose proof (generateWithGradio_calls (generationCall message) prompt
                    gradioEndpoint Portrait_9_16 w1) as Hg.
      destruct (generateWithGradio prompt gradioEndpoint Portrait_9_16 w1)
        as [[u|e] w2]; simpl in *.
      - apply Hg. now intros [].
      - destruct e as [m|v]; [destruct (Js.includes _ m)|]; simpl;
          apply Hg; now intros []. }
    destruct Hsub as (d2 & E2 & F2). exists (d1 ++ d2). split.
    + now rewrite E2, E1, app_assoc.
    + apply Forall_app. now split.
  - intros ai w chat -> Hs. unfold dispatch.
    rewrite andb_false_r, andb_false_r.
    rewrite (chatRoute_run _ _ _ _ _ _ _ Hs). simpl.
    unfold messageContent.
    now destruct (sdkSendMessage _ _ _).
Qed.

(** C9. When the client is made, the session is live after the restore step
    and the call that sends the chat turn is rejected with [e], the send
    operation returns the one apologetic reply, flagged as an error, with
    the text of [e] attached and no visual cue; the session and the tier are
    those the restore step left, the rejected call being the only addition
    to the record of calls. *)
Theorem chat_failure_reply (message : string) (tier : ModelTier)
    (history : list Message) (attachmentBase64 apiKey gradioEndpoint : option string)
    (w w1 : World) (ai : Client) (chat : Chat) (e : Exn) :
  sdkNewClient (calls w) (getApiKey apiKey) = Ok ai ->
  restoreSession tier history apiKey (after w (NewClient (getApiKey apiKey)))
  = (Ok tt, w1) ->
  chatSession w1 = Some chat ->
  sdkSendMessage (calls w1) chat (messageContent message attachmentBase64)
  = Throw e ->
  sendMessageToEve message tier history attachmentBase64 false apiKey
    gradioEndpoint w
  = (Ok (Reply.mk "Connection interrupted. I'm still here, though." None None
                  true (Some (errorText e))),
     mkWorld (chatSession w1) (currentTier w1)
       (calls w1 ++ [SendMessage chat (messageContent message attachmentBase64)])).
Proof.
  intros Hai Hrestore Hchat Hsend.
  unfold sendMessageToEve, bind, newGoogleGenAI, perform. simpl.
  rewrite Hai. fold (after w (NewClient (getApiKey apiKey))).
  rewrite Hrestore. unfold tryCatch, dispatch.
  rewrite andb_false_r, andb_false_r.
  rewrite (chatRoute_run _ _ _ _ _ _ _ Hchat). simpl.
  now rewrite Hsend.
Qed.

(** C10. On a direct generation request, an instruction whose lower-cased
    text contains selfie or you makes no rewrite call: the prompt is the
    persona template around the raw instruction, and it is the one
    submitted. Any other instruction goes to the rewrite: a client is made
    and, unless that fails, the rewrite request is sent, its answer (or the
    raw instruction when it fails or is empty) being the prompt. *)
Theorem self_portrait_heuristic (message : string) (tier : ModelTier)
    (apiKey gradioEndpoint : option string) (w : World) :
  let key := getApiKey apiKey in
  let persona :=
    Js.concat [ "Subject: "; EVE_APPEARANCE; ". Action: "; message;
                ". Style: Photorealistic, 8k." ] in
  if Js.includes "selfie" (Js.toLowerCase message)
     || Js.includes "you" (Js.toLowerCase message)
  then
    generationPrompt message tier apiKey w = (Ok persona, w)
    /\ imageGenerateRoute message tier apiKey gradioEndpoint w
       = submitPrompt persona gradioEndpoint w
  else
    match sdkNewClient (calls w) key with
    | Throw e =>
        generationPrompt message tier apiKey w
        = (Throw e, after w (NewClient key))
    | Ok ai =>
        let w1 := after w (NewClient key) in
        let mdl := chatModel (MODELS tier) in
        let contents := [TextPart (rephraseInstruction message)] in
        let rewritten :=
          match sdkGenerateContent (calls w1) ai mdl contents rephraseConfig with
          | Ok response => rephrasedOr message response
          | Throw _ => message
          end in
        let w2 := after w1 (GenerateContent ai mdl contents rephraseConfig) in
        generationPrompt message tier apiKey w = (Ok rewritten, w2)
        /\ imageGenerateRoute message tier apiKey gradioEndpoint w
           = submitPrompt rewritten gradioEndpoint w2
    end.
Proof.
  intros key persona.
  unfold imageGenerateRoute, bind, generationPrompt, asksForSelfie.
  destruct (Js.includes "selfie" (Js.toLowerCase message)
            || Js.includes "you" (Js.toLowerCase message)).
  - now split.
  - rewrite rephrasePromptForGradio_run. fold key.
    destruct (sdkNewClient (calls w) key) as [ai|e]; [|reflexivity].
    now split.
Qed.

End RoutingProperties.

Lemma chat_failure_reply_witness :
  @sendMessageToEve _ rejectingServices "hi" free [] None false None None
    liveWorld
  = (Ok (Reply.mk "Connection interrupted. I'm still here, though." None None
                  true (Some "deadline exceeded")),
     @mkWorld sampleHandles (Some 7) free
       [ @NewClient sampleHandles EmptyString;
         @SendMessage sampleHandles 7 (ContentText "hi") ]).
Proof.
  exact (@chat_failure_reply _ rejectingServices "hi" free [] None None None
           liveWorld
           (@after sampleHandles liveWorld (@NewClient sampleHandles EmptyString))
           tt 7 (JsError "deadline exceeded")
           eq_refl eq_refl eq_refl eq_refl).
Defined.

Lemma send_follows_route_table_witness :
  @calls sampleHandles
    (snd (@dispatch _ rejectingServices tt "what is this?" free
            (Some "data:image/png;base64,QUJD") false None None liveWorld))
  = [ @SendMessage sampleHandles 7
        (ContentParts [InlineData "image/png" "QUJD"; TextPart "what is this?"]) ].
Proof.
  exact (proj2 (proj2 (proj2
           (@send_follows_route_table _ rejectingServices "what is this?" free []
              (Some "data:image/png;base64,QUJD") false None None)))
           tt liveWorld 7 eq_refl eq_refl).
Defined.

(** ** The whole path, once *)

(** From an empty log, "hi" goes to the chat route over a context opened
    without turns; the reply "hey! [SELFIE: waving]" is shown as "hey!" with
    the cue "waving"; the job settles with the URL of the image and the
    message ends with this image, not pending. *)
Example end_to_end :
  let sent :=
    @sendMessageToEve _ workingServices "hi" free [] None false None
      (Some "https://backend") freshWorld in
  let job :=
    @generateVisualSelfie _ workingServices "waving" free None
      (Some "https://backend") (snd sent) in
  fst sent = Ok (Reply.mk "hey!" None (Some "waving") false None)
  /\ @chatSession sampleHandles (snd sent) = Some 1
  /\ completeVisualJob "2" (settle (fst job))
       [eveMessage "2" "hey!" None (Some "waving")]
     = [mkMessage "2" model "hey!" (Some "https://x/y.png") None (Some false)].
Proof. repeat split. Qed.

(** * Further properties *)

(** ** Shape of the reconciled sequence *)

Lemma mergeLoop_shape (rest : list Turn) :
  forall cur,
    exists ps ts,
      mergeLoop cur rest [] = mkTurn (turnRole cur) ps :: ts
      /\ alternatingTurns (mkTurn (turnRole cur) ps :: ts) = true
      /\ (parts cur <> [] -> ps <> []).
Proof.
  induction rest as [|nxt rest IH]; intros cur.
  - exists (parts cur), []. destruct cur; simpl. auto.
  - simpl. destruct (Role_eqb (turnRole nxt) (turnRole cur)) eqn:E.
    + destruct (IH (mkTurn (turnRole cur) (parts cur ++ parts nxt)))
        as (ps & ts & Hm & Ha & Hp).
      exists ps, ts. repeat split; try assumption.
      intros Hc. apply Hp. simpl. destruct (parts cur); [congruence|discriminate].
    + rewrite mergeLoop_acc.
      destruct (IH nxt) as (ps & ts & Hm & Ha & Hp). rewrite Hm.
      exists (parts cur), (mkTurn (turnRole nxt) ps :: ts).
      split; [now destruct cur|]. split; [|auto].
      cbn [alternatingTurns turnRole] in *. rewrite Ha, andb_true_r.
      destruct (turnRole cur), (turnRole nxt); simpl in *; congruence.
Qed.

Lemma alternatingTurns_tail (t : Turn) (ts : list Turn) :
  alternatingTurns (t :: ts) = true -> alternatingTurns ts = true.
Proof.
  destruct ts as [|b ts]; [reflexivity|].
  simpl. rewrite andb_true_iff. tauto.
Qed.

Lemma dropLeadingModel_alternating (ts : list Turn) :
  alternatingTurns ts = true -> alternatingTurns (dropLeadingModel ts) = true.
Proof.
  induction ts as [|t ts IH]; intros Ha; [reflexivity|].
  simpl. destruct (turnRole t); [exact Ha|].
  apply IH. exact (alternatingTurns_tail _ _ Ha).
Qed.

Lemma alternatingTurns_snoc (ts : list Turn) (x d : Turn) :
  alternatingTurns ts = true ->
  ts <> [] -> Role_eqb (turnRole (last ts d)) (turnRole x) = false ->
  alternatingTurns (ts ++ [x]) = true.
Proof.
  induction ts as [|a ts IH]; intros Ha Hne Hl; [congruence|].
  destruct ts as [|b ts].
  - simpl in *. now rewrite Hl.
  - change (alternatingTurns (a :: b :: (ts ++ [x])) = true).
    change (alternatingTurns (a :: b :: ts) = true) in Ha.
    simpl in Ha. apply andb_true_iff in Ha. destruct Ha as [Hab Hrest].
    simpl. rewrite Hab. simpl.
    apply (IH Hrest); [discriminate|exact Hl].
Qed.

Lemma closeOnModel_alternating (ts : list Turn) :
  alternatingTurns ts = true -> alternatingTurns (closeOnModel ts) = true.
Proof.
  intros Ha. unfold closeOnModel. destruct ts as [|t rest]; [reflexivity|].
  destruct (turnRole (last (t :: rest) syntheticTurn)) eqn:E; [|exact Ha].
  apply (alternatingTurns_snoc _ _ syntheticTurn Ha); [discriminate|].
  now rewrite E.
Qed.

Lemma mergePass_alternating (ts : list Turn) :
  alternatingTurns (mergePass ts) = true.
Proof.
  destruct ts as [|first rest]; [reflexivity|]. simpl.
  destruct (mergeLoop_shape rest first) as (ps & l & -> & Ha & _). exact Ha.
Qed.

(** X1. Whatever the log, no two adjacent turns of the reconciled sequence
    share a role. *)
Theorem reconcile_alternates (history : list Message) :
  alternatingTurns (reconcileHistory history) = true.
Proof.
  unfold reconcileHistory.
  apply closeOnModel_alternating, dropLeadingModel_alternating,
    mergePass_alternating.
Qed.

Lemma flatten_nonempty (history : list Message) :
  Forall (fun t => parts t <> []) (flatten history).
Proof.
  induction history as [|h rest IH]; simpl; [constructor|].
  apply Forall_app. split; [|exact IH].
  unfold flattenEntry. destruct (flag (isError h)); [constructor|].
  destruct (role h).
  - destruct (userParts h) eqn:E; repeat constructor. simpl. discriminate.
  - repeat constructor. simpl. discriminate.
Qed.

Lemma mergeLoop_nonempty (rest : list Turn) :
  forall cur merged,
    parts cur <> [] ->
    Forall (fun t => parts t <> []) rest ->
    Forall (fun t => parts t <> []) merged ->
    Forall (fun t => parts t <> []) (mergeLoop cur rest merged).
Proof.
  induction rest as [|nxt rest IH]; intros cur merged Hc Hr Hm; simpl.
  - apply Forall_app. split; [exact Hm|]. now repeat constructor.
  - inversion Hr as [|? ? Hn Hrest]; subst.
    destruct (Role_eqb (turnRole nxt) (turnRole cur)).
    + apply IH; try assumption. simpl.
      destruct (parts cur); [congruence|discriminate].
    + apply IH; try assumption.
      apply Forall_app. split; [exact Hm|]. now repeat constructor.
Qed.

Lemma dropLeadingModel_Forall (P : Turn -> Prop) (ts : list Turn) :
  Forall P ts -> Forall P (dropLeadingModel ts).
Proof.
  induction 1 as [|t ts Ht Hts IH]; simpl; [constructor|].
  destruct (turnRole t); [now constructor|exact IH].
Qed.

(** X2. Every turn of the reconciled sequence carries at least one part. *)
Theorem reconcile_turns_nonempty (history : list Message) :
  Forall (fun t => parts t <> []) (reconcileHistory history).
Proof.
  unfold reconcileHistory.
  assert (Hm : Forall (fun t => parts t <> []) (mergePass (flatten history))).
  { pose proof (flatten_nonempty history) as Hf.
    destruct (flatten history) as [|first rest]; [constructor|].
    inversion Hf; subst. simpl. apply mergeLoop_nonempty; auto. }
  apply (dropLeadingModel_Forall _ _) in Hm.
  unfold closeOnModel.
  destruct (dropLeadingModel (mergePass (flatten history))) as [|t rest];
    [constructor|].
  destruct (turnRole (last (t :: rest) syntheticTurn)); [|exact Hm].
  apply Forall_app. split; [exact Hm|].
  repeat constructor. simpl. discriminate.
Qed.

Lemma allParts_app (l1 l2 : list Turn) :
  allParts (l1 ++ l2) = allParts l1 ++ allParts l2.
Proof. unfold allParts. apply flat_map_app. Qed.

Lemma mergeLoop_allParts (rest : list Turn) :
  forall cur merged,
    allParts (mergeLoop cur rest merged)
    = allParts merged ++ parts cur ++ allParts rest.
Proof.
  induction rest as [|nxt rest IH]; intros cur merged; simpl.
  - rewrite allParts_app. simpl. now rewrite !app_nil_r.
  - destruct (Role_eqb (turnRole nxt) (turnRole cur)).
    + rewrite IH. simpl. now rewrite <- app_assoc.
    + rewrite IH, allParts_app. simpl.
      now rewrite app_nil_r, <- app_assoc.
Qed.

Lemma mergeLoop_drop_model (rest : list Turn) :
  forall cur,
    turnRole cur = model ->
    allParts (dropLeadingModel (mergeLoop cur rest []))
    = allParts (dropLeadingModel rest).
Proof.
  induction rest as [|nxt rest IH]; intros cur Hc; simpl.
  - now rewrite Hc.
  - rewrite Hc. destruct (turnRole nxt) eqn:En; simpl.
    + rewrite mergeLoop_acc. simpl. rewrite Hc.
      destruct (mergeLoop_shape rest nxt) as (ps & ts & Hm & _ & _).
      pose proof (mergeLoop_allParts rest nxt []) as Hp.
      rewrite Hm in *. simpl. rewrite En. simpl in Hp. exact Hp.
    + apply IH. reflexivity.
Qed.

(** X3. Reconciliation keeps the parts of the kept entries in their order:
    the parts of the reconciled sequence are those of the flattened log from
    its first user turn on, followed by the placeholder exactly when a
    synthetic turn was appended. Nothing is lost, duplicated or reordered by
    the merge. *)
Theorem reconcile_preserves_parts (history : list Message) :
  exists tail,
    (tail = [] \/ tail = [TextPart placeholder])
    /\ allParts (reconcileHistory history)
       = allParts (dropLeadingModel (flatten history)) ++ tail.
Proof.
  unfold reconcileHistory.
  assert (Hd : allParts (dropLeadingModel (mergePass (flatten history)))
               = allParts (dropLeadingModel (flatten history))).
  { destruct (flatten history) as [|first rest]; [reflexivity|].
    cbn [mergePass]. destruct (turnRole first) eqn:Ef.
    - destruct (mergeLoop_shape rest first) as (ps & ts & Hm & _ & _).
      pose proof (mergeLoop_allParts rest first []) as Hp.
      rewrite Hm in *. simpl. rewrite Ef. exact Hp.
    - rewrite (mergeLoop_drop_model rest first Ef). simpl. now rewrite Ef. }
  rewrite <- Hd. unfold closeOnModel.
  destruct (dropLeadingModel (mergePass (flatten history))) as [|t rest].
  - exists []. split; [now left|]. now rewrite app_nil_r.
  - destruct (turnRole (last (t :: rest) syntheticTurn)).
    + exists [TextPart placeholder]. split; [now right|].
      now rewrite allParts_app.
    + exists []. split; [now left|]. now rewrite app_nil_r.
Qed.

Lemma flatten_model_only (history : list Message) :
  Forall (fun h => flag (isError h) = true \/ role h = model
                   \/ userParts h = []) history ->
  Forall (fun t => turnRole t = model) (flatten history).
Proof.
  induction 1 as [|h rest Hh _ IH]; simpl; [constructor|].
  apply Forall_app. split; [|exact IH].
  unfold flattenEntry. destruct (flag (isError h)); [constructor|].
  destruct (role h) eqn:Er.
  - destruct Hh as [Hh|[Hh|Hh]]; try discriminate.
    rewrite Hh. constructor.
  - now repeat constructor.
Qed.

Lemma mergeLoop_all_model (rest : list Turn) :
  forall cur,
    turnRole cur = model ->
    Forall (fun t => turnRole t = model) rest ->
    exists ps, mergeLoop cur rest [] = [mkTurn model ps].
Proof.
  induction rest as [|nxt rest IH]; intros cur Hc Hr; simpl.
  - exists (parts cur). destruct cur; simpl in *. now subst.
  - inversion Hr as [|? ? Hn Hrest]; subst. rewrite Hn, Hc. simpl.
    apply IH; [reflexivity|assumption].
Qed.

(** X4. A log in which no user entry yields a part (every entry is an error
    entry, a model entry, or a user entry without usable text or image)
    reconciles to the empty sequence. *)
Theorem reconcile_without_user_is_empty (history : list Message) :
  Forall (fun h => flag (isError h) = true \/ role h = model
                   \/ userParts h = []) history ->
  reconcileHistory history = [].
Proof.
  intros Hall. pose proof (flatten_model_only _ Hall) as Hm.
  unfold reconcileHistory.
  destruct (flatten history) as [|first rest]; [reflexivity|].
  inversion Hm as [|? ? Hf Hrest]; subst.
  destruct (mergeLoop_all_model rest first Hf Hrest) as [ps E].
  cbn [mergePass]. rewrite E. reflexivity.
Qed.

Lemma reconcile_without_user_is_empty_witness : reconcileHistory log_x4 = [].
Proof.
  apply (reconcile_without_user_is_empty log_x4).
  constructor; [right; left; reflexivity|].
  constructor; [right; right; reflexivity|].
  constructor; [left; reflexivity|constructor].
Defined.

(** ** Data URLs *)

Lemma append_empty_r (s : string) : (s ++ EmptyString)%string = s.
Proof. induction s as [|c s IH]; simpl; [reflexivity|now rewrite IH]. Qed.

Lemma append_assoc_r (a b c : string) :
  ((a ++ b) ++ c)%string = (a ++ (b ++ c))%string.
Proof. induction a as [|x a IH]; simpl; [reflexivity|now rewrite IH]. Qed.

Lemma startsWith_append (lit s : string) :
  Js.startsWith lit (lit ++ s)%string = true.
Proof.
  unfold Js.startsWith. induction lit as [|c lit IH]; simpl.
  - now destruct s.
  - destruct (ascii_dec c c); [exact IH|congruence].
Qed.

Lemma greedyBefore_cons (lit : string) (c : ascii) (s : string) :
  Js.greedyBefore lit (String c s)
  = let here :=
      if Js.startsWith lit (String c s) then Some EmptyString else None in
    if Js.isLineTerminator c then here
    else match Js.greedyBefore lit s with
         | Some p => Some (String c p)
         | None => here
         end.
Proof. reflexivity. Qed.

Lemma greedyBefore_no_semicolon (s : string) :
  Js.every Js.notSemicolon s = true ->
  Js.greedyBefore ";base64," s = None.
Proof.
  induction s as [|c s IH]; [reflexivity|].
  cbn [Js.every]. rewrite andb_true_iff. intros [Hc Hs].
  rewrite greedyBefore_cons, (IH Hs).
  assert (Hh : Js.startsWith ";base64," (String c s) = false).
  { unfold Js.startsWith. cbn [String.prefix].
    unfold Js.notSemicolon in Hc. apply negb_true_iff in Hc.
    destruct (ascii_dec ";" c) as [<-|Hne]; [|reflexivity].
    now rewrite Ascii.eqb_refl in Hc. }
  cbv zeta. rewrite Hh. now destruct (Js.isLineTerminator c).
Qed.

Lemma greedyBefore_found (m d : string) :
  Js.every Js.notLineTerminator m = true ->
  Js.every Js.notSemicolon d = true ->
  Js.greedyBefore ";base64," (m ++ ";base64," ++ d)%string = Some m.
Proof.
  intros Hm Hd. induction m as [|c m IH].
  - change (EmptyString ++ ";base64," ++ d)%string
      with (String ";" ("base64," ++ d)%string).
    rewrite greedyBefore_cons.
    rewrite (greedyBefore_no_semicolon ("base64," ++ d)%string Hd).
    change (String ";" ("base64," ++ d)%string) with (";base64," ++ d)%string.
    cbv zeta. now rewrite startsWith_append.
  - cbn [Js.every] in Hm. apply andb_true_iff in Hm. destruct Hm as [Hc Hm].
    change (String c m ++ ";base64," ++ d)%string
      with (String c (m ++ ";base64," ++ d)%string).
    rewrite greedyBefore_cons, (IH Hm).
    unfold Js.notLineTerminator in Hc. apply negb_true_iff in Hc.
    now rewrite Hc.
Qed.

Lemma starThen_word_run (X : Type) (k : string -> option X) (w r : string)
    (x : X) :
  Js.every Js.isWordChar w = true ->
  k r = Some x ->
  (forall c r', r = String c r' -> Js.isWordChar c = false) ->
  Js.starThen Js.isWordChar k (w ++ r)%string = Some x.
Proof.
  intros Hw Hk Hr. induction w as [|c w IH].
  - simpl. destruct r as [|c r']; simpl; [exact Hk|].
    now rewrite (Hr c r' eq_refl).
  - cbn [Js.every] in Hw. apply andb_true_iff in Hw. destruct Hw as [Hc Hw].
    cbn [String.append Js.starThen]. now rewrite Hc, (IH Hw).
Qed.

Lemma word_not_line_terminator (w : string) :
  Js.every Js.isWordChar w = true -> Js.every Js.notLineTerminator w = true.
Proof.
  induction w as [|c w IH]; [reflexivity|].
  cbn [Js.every]. rewrite !andb_true_iff. intros [Hc Hw].
  split; [|exact (IH Hw)].
  unfold Js.notLineTerminator, Js.isLineTerminator, Js.isWordChar, Js.between in *.
  destruct (Js.code c =? 10) eqn:E10;
    [apply Nat.eqb_eq in E10; rewrite E10 in Hc; discriminate|].
  destruct (Js.code c =? 13) eqn:E13;
    [apply Nat.eqb_eq in E13; rewrite E13 in Hc; discriminate|].
  reflexivity.
Qed.

(** X5. A data URL made of an image type (image/ and a word) and a payload
    free of semicolons is taken apart again: [getMimeType] gives the type,
    the prefix removal gives the payload, and a user entry or an attachment
    carrying the URL becomes the inline part of that type and payload. *)
Theorem data_url_round_trip (w payload : string) :
  Js.truthy w = true ->
  Js.every Js.isWordChar w = true ->
  Js.every Js.notSemicolon payload = true ->
  let mime := ("image/" ++ w)%string in
  let url := dataUrlOf (Some mime, payload) in
  getMimeType url = mime
  /\ stripDataUrlPrefix url = payload
  /\ attachmentPart (Some url) = InlineData mime payload
  /\ (Js.truthy payload = true ->
      imageParts (Some url) = [InlineData mime payload]).
Proof.
  intros Hne Hw Hp mime url.
  assert (Eurl : url = ("data:image/" ++ w ++ ";base64," ++ payload)%string).
  { subst url mime. unfold dataUrlOf, Js.concat, Js.orElse. simpl.
    now rewrite append_empty_r. }
  assert (Emime : getMimeType url = mime).
  { rewrite Eurl. unfold getMimeType.
    change ("data:image/" ++ w ++ ";base64," ++ payload)%string
      with ("data:" ++ (mime ++ ";base64," ++ payload))%string.
    rewrite startsWith_append.
    change (Js.drop 5 ("data:" ++ (mime ++ ";base64," ++ payload))%string)
      with (mime ++ ";base64," ++ payload)%string.
    rewrite greedyBefore_found; [reflexivity| |exact Hp].
    subst mime. simpl. now apply word_not_line_terminator. }
  assert (Edata : stripDataUrlPrefix url = payload).
  { rewrite Eurl. unfold stripDataUrlPrefix. unfold Js.literal at 1.
    rewrite startsWith_append.
    change (Js.drop (String.length "data:image/")
              ("data:image/" ++ w ++ ";base64," ++ payload)%string)
      with (w ++ ";base64," ++ payload)%string.
    destruct w as [|c w]; [discriminate|].
    cbn [Js.every] in Hw. apply andb_true_iff in Hw. destruct Hw as [Hc Hw].
    cbn [String.append Js.plusThen]. rewrite Hc.
    rewrite (starThen_word_run _ _ w (";base64," ++ payload)%string payload Hw);
      [reflexivity| |].
    - unfold Js.literal. now rewrite startsWith_append.
    - intros c0 r' [= <- _]. reflexivity. }
  assert (Htruthy : Js.truthy url = true /\ Js.startsWith "data:" url = true
                    /\ Js.truthy mime = true).
  { rewrite Eurl. repeat split. }
  destruct Htruthy as (Ht & Hs & Hmt).
  repeat split.
  - exact Emime.
  - exact Edata.
  - unfold attachmentPart. now rewrite Ht, Emime, Edata.
  - intros Hpay. unfold imageParts.
    now rewrite Ht, Hs, Emime, Edata, Hpay, Hmt.
Qed.

Lemma data_url_round_trip_witness :
  getMimeType "data:image/png;base64,iVBORw0KGgo=" = "image/png"
  /\ stripDataUrlPrefix "data:image/png;base64,iVBORw0KGgo=" = "iVBORw0KGgo=".
Proof.
  destruct (data_url_round_trip "png" "iVBORw0KGgo=" eq_refl eq_refl eq_refl)
    as (H1 & H2 & _).
  split; [exact H1|exact H2].
Defined.



(** ** Visual trigger protocol, in general *)

Lemma includes_cons (sub : string) (c : ascii) (s : string) :
  Js.includes sub (String c s) = false ->
  Js.startsWith sub (String c s) = false /\ Js.includes sub s = false.
Proof. cbn [Js.includes]. now rewrite orb_false_iff. Qed.

Lemma selfieMatch_absent (s : string) :
  Js.includes "[SELFIE" s = false -> selfieMatch s = None.
Proof.
  induction s as [|c s IH]; [reflexivity|].
  intros Hi. apply includes_cons in Hi. destruct Hi as [Hs Hi].
  cbn [selfieMatch]. unfold selfieAt, Js.literal. rewrite Hs. exact (IH Hi).
Qed.

(** X7. A reply that does not contain the opening of the marker goes through
    the trigger parser untouched, not even trimmed, and gives no cue,
    whether or not an image backend is configured. *)
Theorem triggerParser_plain_reply (replyText : string)
    (gradioEndpoint : option string) :
  Js.includes "[SELFIE" replyText = false ->
  triggerParser replyText gradioEndpoint = (replyText, None).
Proof.
  intros Hi. unfold triggerParser. now rewrite (selfieMatch_absent _ Hi).
Qed.

Lemma triggerParser_plain_reply_witness :
  triggerParser "  I am [not] a selfie  " None
  = ("  I am [not] a selfie  ", None).
Proof. exact (triggerParser_plain_reply "  I am [not] a selfie  " None eq_refl). Defined.

Lemma triggerParser_some (replyText : string) (gradioEndpoint : option string)
    (cue : string) :
  snd (triggerParser replyText gradioEndpoint) = Some cue ->
  endpointMissing gradioEndpoint = false /\ cue <> EmptyString.
Proof.
  unfold triggerParser.
  destruct (selfieMatch replyText) as [group1|]; [|discriminate].
  destruct (endpointMissing gradioEndpoint); [discriminate|].
  simpl. intros [= <-]. split; [reflexivity|].
  unfold Js.orElse.
  destruct group1 as [[|c d]|]; simpl; discriminate.
Qed.

(** X8. The trigger parser never gives a cue without a configured image
    backend, and a cue it gives is never empty. *)
Theorem triggerParser_cue (replyText : string) (gradioEndpoint : option string)
    (cue : string) :
  snd (triggerParser replyText gradioEndpoint) = Some cue ->
  endpointMissing gradioEndpoint = false /\ cue <> EmptyString.
Proof. apply triggerParser_some. Qed.

Lemma triggerParser_cue_witness :
  endpointMissing (Some "https://backend") = false
  /\ "looking at the camera" <> EmptyString.
Proof.
  exact (triggerParser_cue "[SELFIE]" (Some "https://backend")
           "looking at the camera" eq_refl).
Defined.

(** ** The image backend and the routes, in general *)

Section ServiceFurther.

Context `{Services}.

Lemma generateWithGradio_throw (prompt : string) (endpoint : option string)
    (aspect : AspectRatio) (w w' : World) (e : Exn) :
  generateWithGradio prompt endpoint aspect w = (Throw e, w') ->
  (endpointMissing endpoint = true
   /\ e = JsError "Gradio endpoint not configured." /\ w' = w)
  \/ (endpointMissing endpoint = false
      /\ exists cause,
           e = JsError (String.append "Gradio connection or prediction failed: "
                                      cause)).
Proof.
  unfold generateWithGradio.
  destruct (endpointMissing endpoint).
  - unfold throw. intros [= <- <-]. left. auto.
  - unfold tryCatch, bind, perform, throw, ret. simpl. intros Hr. right.
    split; [reflexivity|].
    destruct (gradioImport (calls w)) as [[]|e0]; simpl in Hr.
    + destruct (gradioConnect _ _) as [app|e1]; simpl in Hr.
      * destruct (gradioPredict _ _ _ _ _ _ _ _) as [r|e2]; simpl in Hr.
        -- destruct (firstUrl r); simpl in Hr; [discriminate|].
           injection Hr as <- _. eauto.
        -- injection Hr as <- _. eauto.
      * injection Hr as <- _. eauto.
    + injection Hr as <- _. eauto.
Qed.

(** X9. [generateWithGradio] fails in two ways only, both with an [Error]
    object: without a usable endpoint it throws the configuration error
    before any call is made; with one, whatever went wrong (import,
    connection, prediction, a result without URL) is thrown again under the
    fixed prefix. *)
Theorem generateWithGradio_failures (prompt : string)
    (endpoint : option string) (aspect : AspectRatio) (w : World) :
  match generateWithGradio prompt endpoint aspect w with
  | (Ok _, _) => endpointMissing endpoint = false
  | (Throw e, w') =>
      if endpointMissing endpoint
      then e = JsError "Gradio endpoint not configured." /\ w' = w
      else exists cause,
             e = JsError (String.append
                            "Gradio connection or prediction failed: " cause)
  end.
Proof.
  destruct (generateWithGradio prompt endpoint aspect w) as [[u|e] w'] eqn:E.
  - unfold generateWithGradio in E.
    destruct (endpointMissing endpoint); [discriminate|reflexivity].
  - destruct (generateWithGradio_throw _ _ _ _ _ _ E)
      as [(Hm & He & Hw)|(Hm & cause & He)]; rewrite Hm; eauto.
Qed.

(** X10. Submitting a prompt never throws. The reply carries an image and no
    error flag exactly when the backend returned a URL; otherwise it is an
    error reply without image, and without a usable endpoint it is the
    instruction to configure one, no call having been made. *)
Theorem submitPrompt_always_replies (prompt : string)
    (gradioEndpoint : option string) (w : World) :
  exists r w',
    submitPrompt prompt gradioEndpoint w = (Ok r, w')
    /\ match generateWithGradio prompt gradioEndpoint Portrait_9_16 w with
       | (Ok u, w1) =>
           r = Reply.mk "Here is what I visualized for you." (Some u) None
                        false None
           /\ w' = w1
       | (Throw _, w1) =>
           Reply.isError r = true /\ Reply.image r = None /\ w' = w1
           /\ (endpointMissing gradioEndpoint = true ->
               r = needsEndpointReply /\ w' = w)
       end.
Proof.
  unfold submitPrompt, tryCatch, bind, ret.
  destruct (generateWithGradio prompt gradioEndpoint Portrait_9_16 w)
    as [[u|e] w1] eqn:E.
  - eauto.
  - destruct (generateWithGradio_throw _ _ _ _ _ _ E)
      as [(Hm & -> & ->)|(Hm & cause & ->)].
    + simpl. exists needsEndpointReply, w. auto 6.
    + destruct (Js.includes "Gradio endpoint not configured."
                  (String.append "Gradio connection or prediction failed: " cause));
        eexists; eexists; (split; [reflexivity|]);
        repeat split; try reflexivity; congruence.
Qed.

(** X11. [sendMessageToEve] throws only when making the client or restoring
    the session throws; once both are done every route ends in a reply. *)
Theorem sendMessageToEve_throws_early (message : string) (tier : ModelTier)
    (history : list Message) (attachmentBase64 : option string)
    (forceImageGeneration : bool) (apiKey gradioEndpoint : option string)
    (w : World) :
  let key := getApiKey apiKey in
  let sent :=
    sendMessageToEve message tier history attachmentBase64
      forceImageGeneration apiKey gradioEndpoint w in
  match sdkNewClient (calls w) key with
  | Throw e => sent = (Throw e, after w (NewClient key))
  | Ok _ =>
      match restoreSession tier history apiKey (after w (NewClient key)) with
      | (Throw e, w1) => sent = (Throw e, w1)
      | (Ok _, _) => exists r w2, sent = (Ok r, w2)
      end
  end.
Proof.
  intros key sent. subst sent.
  unfold sendMessageToEve, bind, newGoogleGenAI, perform. simpl. fold key.
  destruct (sdkNewClient (calls w) key) as [ai|e]; [|reflexivity].
  fold (after w (NewClient key)).
  destruct (restoreSession tier history apiKey (after w (NewClient key)))
    as [[[]|e] w1]; [|reflexivity].
  unfold tryCatch, ret.
  destruct (dispatch ai message tier attachmentBase64 forceImageGeneration
              apiKey gradioEndpoint w1) as [[r|e] w2]; eauto.
Qed.

(** X12. Without explicit intent, once the client is made and the session
    restored, the send operation makes exactly one more call, the chat turn
    sent to the session the restore step left; whether that call succeeds or
    not, the session and the tier stay as the restore step left them. *)
Theorem chat_turn_single_call (message : string) (tier : ModelTier)
    (history : list Message) (attachmentBase64 apiKey gradioEndpoint : option string)
    (w w1 : World) (ai : Client) :
  sdkNewClient (calls w) (getApiKey apiKey) = Ok ai ->
  restoreSession tier history apiKey (after w (NewClient (getApiKey apiKey)))
  = (Ok tt, w1) ->
  exists chat r,
    chatSession w1 = Some chat
    /\ sendMessageToEve message tier history attachmentBase64 false apiKey
         gradioEndpoint w
       = (Ok r, after w1 (SendMessage chat
                            (messageContent message attachmentBase64))).
Proof.
  intros Hai Hrestore.
  destruct (restoreSession_handle _ _ _ _ _ Hrestore) as [chat Hchat].
  unfold sendMessageToEve, bind, newGoogleGenAI, perform. simpl.
  rewrite Hai. fold (after w (NewClient (getApiKey apiKey))).
  rewrite Hrestore. unfold tryCatch, dispatch.
  rewrite andb_false_r, andb_false_r.
  rewrite (chatRoute_run _ _ _ _ _ _ _ Hchat). simpl.
  destruct (sdkSendMessage _ _ _);
    eexists; eexists; (split; [exact Hchat|reflexivity]).
Qed.

End ServiceFurther.

(** ** Reading the response of an image edit *)

Lemma last_cons {A : Type} (l : list A) :
  forall a d, last (a :: l) d = last l a.
Proof.
  induction l as [|b l IH]; intros a d; [reflexivity|].
  change (last (b :: l) d = last (b :: l) a). now rewrite !IH.
Qed.

Lemma scanParts_spec (ps : list ResponsePart) :
  forall img txt,
    scanParts ps img txt
    = (last (map Some (inlineUrls ps)) img,
       String.append txt (Js.concat (plainTexts ps))).
Proof.
  induction ps as [|p ps IH]; intros img txt.
  - simpl. now rewrite append_empty_r.
  - cbn [scanParts inlineUrls plainTexts flat_map].
    destruct (partInlineData p) as [inline|].
    + rewrite IH. cbn [app map]. f_equal.
      fold (inlineUrls ps). now rewrite last_cons.
    + destruct (partText p) as [t|]; rewrite IH; cbn [app]; [|reflexivity].
      f_equal. fold (plainTexts ps). unfold Js.concat. cbn [fold_right].
      now rewrite append_assoc_r.
Qed.

(** X13. The reply read off an image response: its image is the data URL of
    the last inline part, if there is one; its text is the concatenation, in
    order, of the texts of the other parts, or the fallback text when that
    is empty; it is never an error reply and never carries a visual prompt.
    With a non-empty fallback the text is never empty. *)
Theorem processImageResponse_spec (response : GenerateContentResponse)
    (fallbackText : string) :
  let ps := match candidateParts response with Some l => l | None => [] end in
  processImageResponse response fallbackText
  = Reply.mk (Js.orElse (Js.concat (plainTexts ps)) fallbackText)
             (last (map Some (inlineUrls ps)) None) None false None
  /\ (fallbackText <> EmptyString ->
      Reply.text (processImageResponse response fallbackText) <> EmptyString).
Proof.
  intros ps. subst ps.
  assert (E : processImageResponse response fallbackText
              = Reply.mk
                  (Js.orElse
                     (Js.concat (plainTexts
                        match candidateParts response with
                        | Some l => l | None => [] end)) fallbackText)
                  (last (map Some (inlineUrls
                     match candidateParts response with
                     | Some l => l | None => [] end)) None) None false None).
  { unfold processImageResponse.
    destruct (candidateParts response) as [l|]; [|reflexivity].
    now rewrite scanParts_spec. }
  split; [exact E|].
  intros Hf. rewrite E. simpl. unfold Js.orElse.
  destruct (Js.concat _) as [|c t]; simpl; [exact Hf|discriminate].
Qed.

Lemma processImageResponse_spec_witness :
  Reply.text
    (processImageResponse
       (mkResponse (Some [mkResponsePart (Some (None, "QUJD")) (Some "skipped")])
                   None)
       "done") <> EmptyString.
Proof.
  apply (processImageResponse_spec
           (mkResponse (Some [mkResponsePart (Some (None, "QUJD")) (Some "skipped")])
                       None) "done").
  discriminate.
Defined.

(** ** Session initialisation, in general *)

Section SessionFurther.

Context `{Services}.

Lemma openEmpty_throw (tier : ModelTier) (apiKey : option string)
    (w w' : World) (e : Exn) :
  openEmpty tier apiKey w = (Throw e, w') ->
  chatSession w' = chatSession w /\ currentTier w' = currentTier w.
Proof.
  rewrite openEmpty_run. simpl.
  destruct (sdkNewClient _ _) as [ai|e1]; [|now intros [= _ <-]].
  destruct (sdkChatsCreate _ _ _ _ _) as [c|e1]; [discriminate|].
  now intros [= _ <-].
Qed.

Lemma initializeChat_throw (tier : ModelTier) (history : option (list Turn))
    (apiKey : option string) (w w' : World) (e : Exn) :
  initializeChat tier history apiKey w = (Throw e, w') ->
  chatSession w' = chatSession w.
Proof.
  unfold initializeChat, tryCatch.
  destruct (openSeeded tier history apiKey w) as [[[]|e0] w1] eqn:E;
    [discriminate|].
  intros Hr. apply openEmpty_throw in Hr. destruct Hr as [Hs _].
  rewrite Hs. exact (openSeeded_throw _ _ _ _ _ _ E).
Qed.

(** X14. [startChatWithHistory] either returns with a live session or
    throws with the session it found left in place: it never leaves the
    module without a session that it had before. *)
Theorem startChatWithHistory_outcome (tier : ModelTier)
    (history : list Message) (apiKey : option string) (w : World) :
  match startChatWithHistory tier history apiKey w with
  | (Ok _, w') => exists c, chatSession w' = Some c
  | (Throw _, w') => chatSession w' = chatSession w
  end.
Proof.
  destruct (startChatWithHistory tier history apiKey w) as [[[]|e] w'] eqn:E.
  - exact (startChatWithHistory_handle _ _ _ _ _ E).
  - unfold startChatWithHistory in E. destruct history as [|h rest].
    + exact (initializeChat_throw _ _ _ _ _ _ E).
    + unfold tryCatch in E.
      destruct (initializeChat tier (Some (reconcileHistory (h :: rest))) apiKey w)
        as [[[]|e0] w1] eqn:E1; [discriminate|].
      rewrite (initializeChat_throw _ _ _ _ _ _ E).
      exact (initializeChat_throw _ _ _ _ _ _ E1).
Qed.

Lemma openSeeded_run (tier : ModelTier) (history : option (list Turn))
    (apiKey : option string) (w : World) :
  openSeeded tier history apiKey w
  = let key := getApiKey apiKey in
    let w1 := after w (NewClient key) in
    match sdkNewClient (calls w) key with
    | Throw e => (Throw e, w1)
    | Ok ai =>
        let turns := match history with Some h => h | None => [] end in
        let create :=
          ChatsCreate ai (chatModel (MODELS tier)) seededConfig (Some turns) in
        match sdkChatsCreate (calls w1) ai (chatModel (MODELS tier))
                seededConfig (Some turns) with
        | Throw e =>
            (Throw e, mkWorld (chatSession w) tier (calls w1 ++ [create]))
        | Ok c => (Ok tt, mkWorld (Some c) tier (calls w1 ++ [create]))
        end
    end.
Proof.
  unfold openSeeded, bind, newGoogleGenAI, chatsCreate, perform,
    setCurrentTier, setChatSession, after. simpl.
  destruct (sdkNewClient _ _) as [ai|e]; [|reflexivity]. simpl.
  now destruct (sdkChatsCreate _ _ _ _ _) as [c|e].
Qed.

Lemma openEmpty_calls (tier : ModelTier) (apiKey : option string) (w : World) :
  exists d, calls (snd (openEmpty tier apiKey w)) = calls w ++ d.
Proof.
  rewrite openEmpty_run. simpl.
  destruct (sdkNewClient _ _) as [ai|e]; [|simpl; eauto].
  destruct (sdkChatsCreate _ _ _ _ _) as [c|e]; simpl;
    rewrite <- app_assoc; eauto.
Qed.

Lemma initializeChat_calls (tier : ModelTier) (history : option (list Turn))
    (apiKey : option string) (w : World) :
  exists d, calls (snd (initializeChat tier history apiKey w)) = calls w ++ d.
Proof.
  unfold initializeChat, tryCatch. rewrite openSeeded_run. simpl.
  destruct (sdkNewClient _ _) as [ai|e].
  - destruct (sdkChatsCreate _ _ _ _ _) as [c|e]; simpl.
    + rewrite <- app_assoc. eauto.
    + match goal with
      | |- context [openEmpty tier apiKey ?w0] =>
          destruct (openEmpty_calls tier apiKey w0) as [d Hd]
      end.
      rewrite Hd. simpl. rewrite <- !app_assoc. eauto.
  - match goal with
    | |- context [openEmpty tier apiKey ?w0] =>
        destruct (openEmpty_calls tier apiKey w0) as [d Hd]
    end.
    rewrite Hd. simpl. rewrite <- !app_assoc. eauto.
Qed.

Lemma initializeChat_first_request (tier : ModelTier) (turns : list Turn)
    (apiKey : option string) (w : World) (ai : Client) :
  sdkNewClient (calls w) (getApiKey apiKey) = Ok ai ->
  exists later,
    calls (snd (initializeChat tier (Some turns) apiKey w))
    = calls w
      ++ NewClient (getApiKey apiKey)
         :: ChatsCreate ai (chatModel (MODELS tier)) seededConfig (Some turns)
         :: later.
Proof.
  intros Hai. unfold initializeChat, tryCatch. rewrite openSeeded_run.
  cbv zeta. rewrite Hai.
  destruct (sdkChatsCreate _ _ _ _ _) as [c|e]; simpl.
  - exists []. now rewrite <- app_assoc.
  - match goal with
    | |- context [openEmpty tier apiKey ?w0] =>
        destruct (openEmpty_calls tier apiKey w0) as [d Hd]
    end.
    rewrite Hd. simpl. exists d. now rewrite <- !app_assoc.
Qed.

(** X15. The context [startChatWithHistory] first asks for, once the client
    is made, is seeded with the reconciled log and opened on the chat model
    of the tier with the fixed generation parameters. *)
Theorem startChatWithHistory_first_request (tier : ModelTier)
    (history : list Message) (apiKey : option string) (w : World) (ai : Client) :
  sdkNewClient (calls w) (getApiKey apiKey) = Ok ai ->
  exists later,
    calls (snd (startChatWithHistory tier history apiKey w))
    = calls w
      ++ NewClient (getApiKey apiKey)
         :: ChatsCreate ai (chatModel (MODELS tier)) seededConfig
              (Some (reconcileHistory history))
         :: later.
Proof.
  intros Hai. unfold startChatWithHistory. destruct history as [|h rest].
  - exact (initializeChat_first_request tier [] apiKey w ai Hai).
  - destruct (initializeChat_first_request tier
                (reconcileHistory (h :: rest)) apiKey w ai Hai) as [later Hl].
    unfold tryCatch.
    destruct (initializeChat tier (Some (reconcileHistory (h :: rest))) apiKey w)
      as [[[]|e] w1].
    + exists later. exact Hl.
    + simpl in Hl.
      destruct (initializeChat_calls tier (Some []) apiKey w1) as [d Hd].
      rewrite Hd, Hl. exists (later ++ d).
      rewrite <- app_assoc. reflexivity.
Qed.

End SessionFurther.

(** ** The message list of the application *)

(** X17. The message stored for a failed turn (an error reply of the
    service, or the fixed text after a rejected call) changes nothing in the
    context reconciled from the log afterwards. *)
Theorem failed_turn_leaves_context (messageId : string)
    (response : Result Reply.t) (log : list Message) :
  match response with
  | Ok r => Reply.isError r = true
  | Throw _ => True
  end ->
  flag (isError (replyMessage messageId response)) = true
  /\ reconcileHistory (log ++ [replyMessage messageId response])
     = reconcileHistory log.
Proof.
  intros Hfail.
  assert (Hflag : flag (isError (replyMessage messageId response)) = true).
  { destruct response as [r|e]; simpl; [|reflexivity]. now rewrite Hfail. }
  split; [exact Hflag|].
  unfold reconcileHistory. rewrite flatten_app. simpl.
  unfold flattenEntry. rewrite Hflag. simpl. now rewrite app_nil_r.
Qed.

Lemma failed_turn_leaves_context_witness :
  reconcileHistory
    ([mkMessage "1" user "hi" None None None]
       ++ [replyMessage "2" (Throw (JsValue "offline"))])
  = reconcileHistory [mkMessage "1" user "hi" None None None].
Proof.
  exact (proj2 (failed_turn_leaves_context "2" (Throw (JsValue "offline"))
                  [mkMessage "1" user "hi" None None None] I)).
Defined.

Lemma patchById_compose (messageId : string) (f g : Message -> Message)
    (l : list Message) :
  (forall m, id (g m) = id m) ->
  patchById messageId f (patchById messageId g l)
  = patchById messageId (fun m => f (g m)) l.
Proof.
  intros Hg. unfold patchById. rewrite map_map. apply map_ext. intros m.
  destruct (String.eqb (id m) messageId) eqn:E.
  - now rewrite Hg, E.
  - now rewrite E.
Qed.

Lemma patchById_ext (messageId : string) (f g : Message -> Message)
    (l : list Message) :
  (forall m, f m = g m) -> patchById messageId f l = patchById messageId g l.
Proof.
  intros Hfg. unfold patchById. apply map_ext. intros m.
  now rewrite Hfg.
Qed.

(** X19. Settling a job twice with the same outcome is the same as settling
    it once. *)
Theorem completeVisualJob_idempotent (messageId : string) (o : JobOutcome)
    (prev : list Message) :
  completeVisualJob messageId o (completeVisualJob messageId o prev)
  = completeVisualJob messageId o prev.
Proof.
  rewrite !completeVisualJob_patch.
  destruct (jobImage o) as [g|].
  - rewrite patchById_compose; [|reflexivity].
    apply patchById_ext. reflexivity.
  - rewrite patchById_compose; [|reflexivity].
    apply patchById_ext. reflexivity.
Qed.




(** ** Tier switches and visual jobs *)

Section JobsFurther.

Context `{Services}.

(** X16. When the client is made but the context can be opened neither with
    the turns nor without, [initializeChat] throws having already recorded
    the requested tier, while the session is the one it found; the restore
    step of a later send on that tier then does nothing, so that send goes
    to the older session. *)
Theorem initializeChat_failed_switch (tier : ModelTier)
    (history : option (list Turn)) (apiKey : option string) (w w' : World)
    (ai : Client) (e : Exn) :
  sdkNewClient (calls w) (getApiKey apiKey) = Ok ai ->
  initializeChat tier history apiKey w = (Throw e, w') ->
  chatSession w' = chatSession w
  /\ currentTier w' = tier
  /\ (forall log key, chatSession w <> None ->
        restoreSession tier log key w' = (Ok tt, w')).
Proof.
  intros Hai Hthrow.
  assert (Hs : chatSession w' = chatSession w)
    by exact (initializeChat_throw _ _ _ _ _ _ Hthrow).
  assert (Ht : currentTier w' = tier).
  { unfold initializeChat, tryCatch in Hthrow.
    rewrite openSeeded_run in Hthrow. cbv zeta in Hthrow. rewrite Hai in Hthrow.
    destruct (sdkChatsCreate _ _ _ _ _) as [c|e0]; [discriminate|].
    apply openEmpty_throw in Hthrow. destruct Hthrow as [_ Htier].
    exact Htier. }
  repeat split; try assumption.
  intros log key Hsome. unfold restoreSession, bind, getChatSession,
    getCurrentTier. rewrite Hs, Ht.
  destruct (chatSession w); [|congruence].
  now destruct tier.
Qed.

Lemma submitPrompt_no_cue (prompt : string) (gradioEndpoint : option string)
    (w w' : World) (r : Reply.t) :
  submitPrompt prompt gradioEndpoint w = (Ok r, w') ->
  Reply.visualPrompt r = None.
Proof.
  unfold submitPrompt, tryCatch, bind, ret, throw.
  destruct (generateWithGradio prompt gradioEndpoint Portrait_9_16 w)
    as [[u|e] w1].
  - now intros [= <- _].
  - destruct e as [m|v]; [|discriminate].
    destruct (Js.includes _ m); now intros [= <- _].
Qed.

Lemma dispatch_visualPrompt (ai : Client) (message : string) (tier : ModelTier)
    (attachmentBase64 : option string) (forceImageGeneration : bool)
    (apiKey gradioEndpoint : option string) (w w' : World) (r : Reply.t)
    (cue : string) :
  dispatch ai message tier attachmentBase64 forceImageGeneration apiKey
    gradioEndpoint w = (Ok r, w') ->
  Reply.visualPrompt r = Some cue ->
  forceImageGeneration = false
  /\ endpointMissing gradioEndpoint = false /\ cue <> EmptyString.
Proof.
  unfold dispatch.
  destruct (hasAttachment attachmentBase64 && forceImageGeneration) eqn:E1.
  - unfold imageEditRoute, bind, generateContent, perform, ret. simpl.
    destruct (sdkGenerateContent _ _ _ _ _) as [resp|e]; [|discriminate].
    intros [= <- _]. unfold processImageResponse.
    destruct (match candidateParts resp with
              | Some ps => scanParts ps None EmptyString
              | None => (None, EmptyString)
              end). discriminate.
  - destruct (negb (hasAttachment attachmentBase64) && forceImageGeneration)
      eqn:E2.
    + unfold imageGenerateRoute, bind.
      destruct (generationPrompt message tier apiKey w) as [[p|e] w1];
        [|discriminate].
      intros Hsub Hcue.
      rewrite (submitPrompt_no_cue _ _ _ _ _ Hsub) in Hcue. discriminate.
    + assert (Hf : forceImageGeneration = false).
      { destruct forceImageGeneration; [|reflexivity].
        now destruct (hasAttachment attachmentBase64). }
      unfold chatRoute, bind, getChatSession, ret, throw. simpl.
      destruct (match chatSession w with
                | Some _ => _ | None => _ end) as [[[]|e] w1];
        [|discriminate].
      destruct (chatSession w1) as [chat|]; [|discriminate].
      unfold sendMessage, perform. simpl.
      destruct (sdkSendMessage _ _ _) as [result|e]; [|discriminate].
      destruct (triggerParser _ gradioEndpoint) as [txt vp] eqn:Et.
      intros [= <- _]. simpl. intros ->.
      pose proof (triggerParser_some _ gradioEndpoint cue
                    (f_equal snd Et)) as Hc.
      tauto.
Qed.

(** X18. A reply of the send operation carries a visual prompt, so that the
    application marks its message pending and launches a job, only on the
    chat route and only with a configured image backend; the prompt is never
    empty. *)
Theorem job_needs_backend (message : string) (tier : ModelTier)
    (history : list Message) (attachmentBase64 : option string)
    (forceImageGeneration : bool) (apiKey gradioEndpoint : option string)
    (w : World) (messageId : string) :
  let response :=
    fst (sendMessageToEve message tier history attachmentBase64
           forceImageGeneration apiKey gradioEndpoint w) in
  (launchesJob response = true
   <-> isImageLoading (replyMessage messageId response) = Some true)
  /\ (launchesJob response = true ->
      forceImageGeneration = false
      /\ endpointMissing gradioEndpoint = false).
Proof.
  intros response. split.
  - unfold launchesJob, replyMessage, eveMessage.
    destruct response as [r|e]; simpl; [|split; discriminate].
    destruct (Reply.isError r); simpl; [split; discriminate|].
    destruct (Reply.visualPrompt r) as [v|]; [|split; discriminate].
    destruct (Js.truthy v); split; congruence.
  - subst response.
    unfold sendMessageToEve, bind, tryCatch, ret.
    destruct (newGoogleGenAI (getApiKey apiKey) w) as [[ai|e] w0];
      [|discriminate].
    destruct (restoreSession tier history apiKey w0) as [[[]|e] w1];
      [|discriminate].
    destruct (dispatch ai message tier attachmentBase64 forceImageGeneration
                apiKey gradioEndpoint w1) as [[r|e] w2] eqn:Ed;
      [|discriminate].
    unfold launchesJob. simpl.
    destruct (Reply.isError r); [discriminate|]. simpl.
    destruct (Reply.visualPrompt r) as [v|] eqn:Ev; [|discriminate].
    intros _. destruct (dispatch_visualPrompt _ _ _ _ _ _ _ _ _ _ _ Ed Ev)
      as (Hf & He & _). now split.
Qed.

End JobsFurther.

(** ** Settings in the storage of the browser *)

Lemma trimStart_head (s : string) :
  Js.trimStart s = EmptyString
  \/ exists c t, Js.trimStart s = String c t /\ Js.isWhiteSpace c = false.
Proof.
  induction s as [|c s IH]; [now left|].
  simpl. destruct (Js.isWhiteSpace c) eqn:E; [exact IH|].
  right. now exists c, s.
Qed.

Lemma trimEnd_head (c : ascii) (t : string) :
  Js.isWhiteSpace c = false -> exists t', Js.trimEnd (String c t) = String c t'.
Proof.
  intros Hc. simpl. destruct (Js.trimEnd t) as [|d u].
  - rewrite Hc. now exists EmptyString.
  - now exists (String d u).
Qed.

Lemma trimEnd_idempotent (s : string) :
  Js.trimEnd (Js.trimEnd s) = Js.trimEnd s.
Proof.
  induction s as [|c s IH]; [reflexivity|].
  cbn [Js.trimEnd]. destruct (Js.trimEnd s) as [|d u] eqn:E.
  - destruct (Js.isWhiteSpace c) eqn:Hc; [reflexivity|].
    simpl. now rewrite Hc.
  - change (Js.trimEnd (String c (String d u))) with
      (match Js.trimEnd (String d u) with
       | EmptyString =>
           if Js.isWhiteSpace c then EmptyString else String c EmptyString
       | t => String c t
       end).
    now rewrite IH.
Qed.

Lemma trim_idempotent (s : string) : Js.trim (Js.trim s) = Js.trim s.
Proof.
  unfold Js.trim.
  destruct (trimStart_head s) as [E|(c & t & E & Hc)]; rewrite E.
  - reflexivity.
  - destruct (trimEnd_head c t Hc) as [t' E'].
    rewrite E'. cbn [Js.trimStart]. rewrite Hc, <- E'.
    apply trimEnd_idempotent.
Qed.

Section StorageProperties.

Context `{StorageEnv}.

Lemma lookup_without_same (k : string) (items : Items) :
  lookup k (without k items) = None.
Proof.
  induction items as [|[k' v] items IH]; [reflexivity|].
  unfold without in *. simpl.
  destruct (String.eqb k' k) eqn:E; simpl; [exact IH|].
  now rewrite E.
Qed.

Lemma lookup_without_other (k k' : string) (items : Items) :
  k <> k' -> lookup k' (without k items) = lookup k' items.
Proof.
  intros Hne. induction items as [|[k0 v] items IH]; [reflexivity|].
  unfold without in *. simpl.
  destruct (String.eqb k0 k) eqn:E; simpl.
  - apply String.eqb_eq in E. subst k0.
    apply String.eqb_neq in Hne. now rewrite Hne.
  - now rewrite IH.
Qed.

(** X21. Saving the endpoint typed in the settings and reading it back agree
    with what the application holds: when the storage takes the write, a
    reload finds the trimmed text, or no endpoint when the text is blank;
    and the endpoint held counts as configured exactly when the text is not
    blank. *)
Theorem gradio_endpoint_round_trip (tempGradioEndpoint : string)
    (items : Items) :
  accessFault = None ->
  quotaFault items GRADIO_URL_STORAGE_KEY (Js.trim tempGradioEndpoint) = None ->
  let held := fst (handleSaveGradioEndpoint tempGradioEndpoint items) in
  let stored := snd (handleSaveGradioEndpoint tempGradioEndpoint items) in
  loadGradioEndpoint stored = held
  /\ held = (if String.eqb (Js.trim tempGradioEndpoint) EmptyString
             then None else Some (Js.trim tempGradioEndpoint))
  /\ endpointMissing held
     = String.eqb (Js.trim tempGradioEndpoint) EmptyString.
Proof.
  intros Ha Hq held stored. subst held stored.
  unfold handleSaveGradioEndpoint, saveGradioEndpoint, loadGradioEndpoint,
    setItem, getItem. cbn [fst snd].
  rewrite !trim_idempotent, Ha, Hq. cbn [snd lookup].
  change (String.eqb GRADIO_URL_STORAGE_KEY GRADIO_URL_STORAGE_KEY) with true.
  cbv iota.
  destruct (String.eqb (Js.trim tempGradioEndpoint) EmptyString) eqn:E.
  - repeat split.
  - repeat split. unfold endpointMissing.
    rewrite trim_idempotent, E.
    destruct (Js.trim tempGradioEndpoint); [discriminate|reflexivity].
Qed.

(** X22. Saving the active key id and reading it back: when the storage
    takes the write, a reload finds the id, or none after saving null or the
    empty string; the stored endpoint is not touched. *)
Theorem active_key_id_round_trip (id : option string) (items : Items) :
  accessFault = None ->
  (forall i, quotaFault items ACTIVE_KEY_ID_STORAGE_KEY i = None) ->
  let saved := saveActiveKeyId id items in
  fst saved = Ok tt
  /\ loadActiveKeyId (snd saved)
     = Ok (match id with
           | Some i => if Js.truthy i then Some i else None
           | None => None
           end)
  /\ loadGradioEndpoint (snd saved) = loadGradioEndpoint items.
Proof.
  intros Ha Hq saved. subst saved.
  assert (Hrm : fst (removeItem ACTIVE_KEY_ID_STORAGE_KEY items) = Ok tt
                /\ loadActiveKeyId (snd (removeItem ACTIVE_KEY_ID_STORAGE_KEY items))
                   = Ok None
                /\ loadGradioEndpoint (snd (removeItem ACTIVE_KEY_ID_STORAGE_KEY items))
                   = loadGradioEndpoint items).
  { unfold removeItem, loadActiveKeyId, loadGradioEndpoint, getItem.
    rewrite Ha. cbn [fst snd]. rewrite lookup_without_same.
    rewrite lookup_without_other; [auto|discriminate]. }
  unfold saveActiveKeyId. destruct id as [i|]; [|exact Hrm].
  destruct (Js.truthy i); [|exact Hrm].
  unfold setItem, loadActiveKeyId, loadGradioEndpoint, getItem.
  rewrite Ha, Hq. cbn [fst snd lookup].
  change (String.eqb ACTIVE_KEY_ID_STORAGE_KEY ACTIVE_KEY_ID_STORAGE_KEY)
    with true.
  change (String.eqb ACTIVE_KEY_ID_STORAGE_KEY GRADIO_URL_STORAGE_KEY)
    with false.
  cbv iota. rewrite lookup_without_other; [auto|discriminate].
Qed.

Lemma activeListed_incl (keys keys' : list ApiKeyDef.t) (a : option string) :
  (forall k, In k keys -> isActive (ApiKeyDef.id k) a = true -> In k keys') ->
  activeListed (mkKeyState keys a) -> activeListed (mkKeyState keys' a).
Proof.
  unfold activeListed. simpl. destruct a as [a|]; [|auto].
  intros Hincl (k & Hk & Hid). exists k. split; [|exact Hid].
  apply Hincl; [exact Hk|]. simpl. subst a. apply String.eqb_refl.
Qed.

(** X23. The key handlers keep the active key id, when set, among the ids of
    the listed keys: adding a key, deleting any key, and selecting a listed
    key or the default preserve it, whatever the storage does; and after a
    deletion no listed key has the deleted id. *)
Theorem key_handlers_keep_active_listed (st : KeyState) (items : Items) :
  activeListed st ->
  (forall now label value,
     activeListed (fst (handleAddKey now label value st items)))
  /\ (forall id,
        activeListed (fst (handleDeleteKey id st items))
        /\ forall k, In k (apiKeys (fst (handleDeleteKey id st items))) ->
                     ApiKeyDef.id k <> id)
  /\ (forall k, In k (apiKeys st) ->
        activeListed (fst (handleSelectKey (Some (ApiKeyDef.id k)) st items)))
  /\ activeListed (fst (handleSelectKey None st items)).
Proof.
  intros Hinv. destruct st as [keys a].
  split; [|split; [|split]].
  - intros now label value. unfold handleAddKey.
    destruct (negb (Js.truthy (Js.trim label))
              || negb (Js.truthy (Js.trim value))); [exact Hinv|].
    cbn [apiKeys activeKeyId].
    destruct (List.length (keys ++ [_]) =? 1); cbn [fst].
    + unfold activeListed. simpl.
      exists (ApiKeyDef.mk now (Js.trim label) (Js.trim value)).
      split; [|reflexivity]. apply in_app_iff. right. now left.
    + apply (activeListed_incl keys); [|exact Hinv].
      intros k Hk _. apply in_app_iff. now left.
  - intros kid. split.
    + unfold handleDeleteKey. cbn [apiKeys activeKeyId].
      destruct (isActive kid a) eqn:Ea; cbn [fst].
      * exact I.
      * apply (activeListed_incl keys); [|exact Hinv].
        intros k Hk Hact. apply filter_In. split; [exact Hk|].
        destruct (String.eqb_spec (ApiKeyDef.id k) kid) as [E|_]; [|reflexivity].
        rewrite E in Hact. congruence.
    + intros k Hk. unfold handleDeleteKey in Hk. cbn [apiKeys activeKeyId] in Hk.
      assert (Hin : In k (filter (fun k0 => negb (String.eqb (ApiKeyDef.id k0) kid))
                            keys))
        by (destruct (isActive kid a); exact Hk).
      apply filter_In in Hin. destruct Hin as [_ Hn].
      apply negb_true_iff, String.eqb_neq in Hn. exact Hn.
  - intros k Hk. unfold handleSelectKey, activeListed. simpl. eauto.
  - exact I.
Qed.

End StorageProperties.

(** ** The session vault *)

Section VaultProperties.

Context `{VaultEnv}.

Lemma storeGet_put (r : StoredSession) (store : ObjectStore) :
  storeGet (storedId r) (storePut r store) = Some r.
Proof. unfold storeGet, storePut. simpl. now rewrite String.eqb_refl. Qed.

Lemma storeGet_delete (k : string) (store : ObjectStore) :
  storeGet k (storeDelete k store) = None.
Proof.
  unfold storeGet, storeDelete.
  induction store as [|r store IH]; [reflexivity|].
  simpl. destruct (String.eqb (storedId r) k) eqn:E; simpl; [exact IH|].
  now rewrite E.
Qed.

Lemma filter_delete (k : string) (store : ObjectStore) :
  filter (fun r => String.eqb (storedId r) k) (storeDelete k store) = [].
Proof.
  unfold storeDelete. induction store as [|r store IH]; [reflexivity|].
  simpl. destruct (String.eqb (storedId r) k) eqn:E; simpl; [exact IH|].
  now rewrite E.
Qed.

(** X24. When the database opens and the transaction goes through, saving a
    session replaces whatever was stored: a load then returns exactly the
    saved messages and tier with the time of the save, and the store holds
    one record under the session key. *)
Theorem saveSession_then_load (messages : list Message) (tier : ModelTier)
    (now : nat) (store : ObjectStore) :
  openFault = None -> transactionFault = None ->
  let saved := saveSession messages tier now store in
  let data := mkStored GLOBAL_SESSION_KEY messages tier now in
  fst saved = Ok tt
  /\ loadSession (snd saved) = Ok (Some data)
  /\ filter (fun r => String.eqb (storedId r) GLOBAL_SESSION_KEY) (snd saved)
     = [data].
Proof.
  intros Ho Ht saved data. subst saved.
  unfold saveSession, loadSession. rewrite Ho, Ht. cbn [fst snd].
  split; [reflexivity|]. split.
  - exact (f_equal Ok (storeGet_put data store)).
  - unfold storePut. subst data. cbn [filter storedId].
    rewrite String.eqb_refl. f_equal. apply filter_delete.
Qed.

(** X25. After the vault is cleared, and also when the database does not
    open at all, loading finds no session and does not throw; hydration then
    shows the lone welcome message, which the saving effect does not
    persist. *)
Theorem empty_vault_hydrates_welcome (store : ObjectStore) :
  (openFault <> None \/
   (openFault = None /\ transactionFault = None)) ->
  loadSession (snd (clearSession store)) = Ok None
  /\ hydrate (loadSession (snd (clearSession store))) = [welcomeMessage]
  /\ persisted (hydrate (loadSession (snd (clearSession store)))) = false.
Proof.
  intros Hcase.
  assert (E : loadSession (snd (clearSession store)) = Ok None).
  { unfold loadSession, clearSession.
    destruct Hcase as [Ho|[Ho Ht]].
    - destruct openFault; [reflexivity|congruence].
    - rewrite Ho, Ht. cbn [snd]. f_equal. apply storeGet_delete. }
  rewrite E. repeat split.
Qed.

(** X26. What is persisted is what is restored: a message list that the
    saving effect persists, once saved, is the list hydration yields from a
    load, when the database opens and the transactions go through. *)
Theorem persisted_log_is_restored (messages : list Message) (tier : ModelTier)
    (now : nat) (store : ObjectStore) :
  openFault = None -> transactionFault = None ->
  persisted messages = true ->
  hydrate (loadSession (snd (saveSession messages tier now store)))
  = messages.
Proof.
  intros Ho Ht Hp.
  unfold saveSession, loadSession. rewrite Ho, Ht. cbn [snd].
  pose proof (storeGet_put (mkStored GLOBAL_SESSION_KEY messages tier now) store)
    as Hget.
  cbn [storedId] in Hget. rewrite Hget.
  unfold hydrate. cbn [storedMessages].
  destruct messages; [discriminate|reflexivity].
Qed.

End VaultProperties.

(** ** Closed instances *)


Lemma chat_turn_single_call_witness :
  exists chat r,
    @chatSession sampleHandles
      (@after sampleHandles liveWorld (@NewClient sampleHandles EmptyString))
    = Some chat
    /\ @sendMessageToEve _ workingServices "hi" free [] None false None None
         liveWorld
       = (Ok r,
          @after sampleHandles
            (@after sampleHandles liveWorld (@NewClient sampleHandles EmptyString))
            (@SendMessage sampleHandles chat (ContentText "hi"))).
Proof.
  exact (@chat_turn_single_call _ workingServices "hi" free [] None None None
           liveWorld
           (@after sampleHandles liveWorld (@NewClient sampleHandles EmptyString))
           tt eq_refl eq_refl).
Defined.

Lemma startChatWithHistory_first_request_witness :
  exists later,
    @calls sampleHandles
      (snd (@startChatWithHistory _ workingServices pro log_c1 None freshWorld))
    = @calls sampleHandles freshWorld
      ++ @NewClient sampleHandles EmptyString
         :: @ChatsCreate sampleHandles tt "chat-model"
              (@seededConfig _ workingServices)
              (Some (reconcileHistory log_c1))
         :: later.
Proof.
  exact (@startChatWithHistory_first_request _ workingServices pro log_c1 None
           freshWorld tt eq_refl).
Defined.

Lemma initializeChat_failed_switch_witness :
  @chatSession sampleHandles
    (snd (@initializeChat _ refusingServices pro None None liveWorld)) = Some 7
  /\ @currentTier sampleHandles
       (snd (@initializeChat _ refusingServices pro None None liveWorld)) = pro.
Proof.
  destruct (@initializeChat_failed_switch _ refusingServices pro None None
              liveWorld
              (snd (@initializeChat _ refusingServices pro None None liveWorld))
              tt (JsError "fetch failed") eq_refl eq_refl) as (Hs & Ht & _).
  split; [exact Hs|exact Ht].
Defined.

Lemma job_needs_backend_witness :
  false = false /\ endpointMissing (Some "https://backend") = false.
Proof.
  exact (proj2 (@job_needs_backend _ workingServices "hi" free [] None false
                  None (Some "https://backend") freshWorld "2") eq_refl).
Defined.

Lemma gradio_endpoint_round_trip_witness :
  @loadGradioEndpoint plainStorage
    (snd (@handleSaveGradioEndpoint plainStorage "  https://space.hf  " []))
  = Some "https://space.hf".
Proof.
  destruct (@gradio_endpoint_round_trip plainStorage "  https://space.hf  " []
              eq_refl eq_refl) as (H1 & H2 & _).
  rewrite H1. exact H2.
Defined.

Lemma active_key_id_round_trip_witness :
  @loadActiveKeyId plainStorage
    (snd (@saveActiveKeyId plainStorage (Some "18")
            [("eve_gradio_url", "https://space.hf")]))
  = Ok (Some "18").
Proof.
  exact (proj1 (proj2 (@active_key_id_round_trip plainStorage (Some "18")
                         [("eve_gradio_url", "https://space.hf")]
                         eq_refl (fun _ => eq_refl)))).
Defined.

Lemma keys_x23_listed : activeListed keys_x23.
Proof.
  exists (ApiKeyDef.mk "18" "home" "AIza-2"). split; [|reflexivity].
  right. now left.
Defined.

Lemma key_handlers_keep_active_listed_witness :
  activeListed (fst (@handleDeleteKey plainStorage "17" keys_x23 [])).
Proof.
  exact (proj1 (proj1 (proj2 (@key_handlers_keep_active_listed plainStorage
                                keys_x23 [] keys_x23_listed)) "17")).
Defined.

Lemma saveSession_then_load_witness :
  @loadSession plainVault
    (snd (@saveSession plainVault log_c8 pro 42
            [mkStored "global_session" log_c1 free 5]))
  = Ok (Some (mkStored "global_session" log_c8 pro 42)).
Proof.
  exact (proj1 (proj2 (@saveSession_then_load plainVault log_c8 pro
                         42
                         [mkStored "global_session" log_c1 free 5]
                         eq_refl eq_refl))).
Defined.

Lemma empty_vault_hydrates_welcome_witness :
  @hydrate
    (@loadSession plainVault
       (snd (@clearSession plainVault [mkStored "global_session" log_c1 free 5])))
  = [welcomeMessage].
Proof.
  exact (proj1 (proj2 (@empty_vault_hydrates_welcome plainVault
                         [mkStored "global_session" log_c1 free 5]
                         (or_intror (conj eq_refl eq_refl))))).
Defined.

Lemma persisted_log_is_restored_witness :
  @hydrate (@loadSession plainVault
              (snd (@saveSession plainVault log_c8 pro 9 [])))
  = log_c8.
Proof.
  exact (@persisted_log_is_restored plainVault log_c8 pro 9 []
           eq_refl eq_refl eq_refl).
Defined.
